(** * Release providers of [bin]: generic version endpoint and GitHub releases

    A shallow embedding of [pkg/providers]: the generic provider (a version
    endpoint plus a download-URL template) and the GitHub provider (release
    lookup, candidate enumeration, construction from a repository URL and
    the process environment).

    Go strings are byte sequences and are modelled by [string] (a sequence
    of 8-bit [ascii] values).  The remote services and the packages the
    providers call into but do not define ([net/url], [net/http],
    [go-github], [pkg/assets], [path/filepath]) are gathered in a record of
    oracles, [World].  Logging and calls to the collaborators are recorded
    in a trace of events, and a nil-pointer dereference is a third outcome
    next to a returned value and a returned error. *)

From Stdlib Require Import NArith ZArith Ascii String Lia.
From stdpp Require Import base option list gmap strings.

Local Open Scope N_scope.

(** ** Bytes of a Go string *)

Definition to_bytes (s : string) : list ascii := list_ascii_of_string s.
Definition of_bytes (l : list ascii) : string := string_of_list_ascii l.
Definition len (s : string) : nat := String.length s.

(** ** [unicode/utf8] and [unicode] *)

Module utf8.

(** [utf8.AppendRune] for the code points of the Basic Multilingual Plane
    (one to three bytes). *)
Definition EncodeRune (r : N) : list ascii :=
  if r <? 0x80 then [ascii_of_N r]
  else if r <? 0x800 then
    [ascii_of_N (N.lor 0xC0 (N.shiftr r 6));
     ascii_of_N (N.lor 0x80 (N.land r 0x3F))]
  else
    [ascii_of_N (N.lor 0xE0 (N.shiftr r 12));
     ascii_of_N (N.lor 0x80 (N.land (N.shiftr r 6) 0x3F));
     ascii_of_N (N.lor 0x80 (N.land r 0x3F))].

End utf8.

Module unicode.

(** The code points with the Unicode White_Space property, which is the
    set [unicode.IsSpace] accepts. *)
Definition White_Space : list N :=
  [0x09; 0x0A; 0x0B; 0x0C; 0x0D; 0x20; 0x85; 0xA0; 0x1680;
   0x2000; 0x2001; 0x2002; 0x2003; 0x2004; 0x2005; 0x2006; 0x2007;
   0x2008; 0x2009; 0x200A; 0x2028; 0x2029; 0x202F; 0x205F; 0x3000].

(** Their UTF-8 encodings.  Each is a valid shortest-form encoding, so a
    string starts (ends) with one of them exactly when decoding its first
    (last) rune yields a white-space code point. *)
Definition spaceRunes : list (list ascii) := utf8.EncodeRune <$> White_Space.

End unicode.

(** ** [strings] *)

Module strings.

Definition hasPrefix (p s : list ascii) : bool := bool_decide (p `prefix_of` s).
Definition hasSuffix (p s : list ascii) : bool := bool_decide (p `suffix_of` s).

(** The white-space rune a byte sequence starts with, and ends with. *)
Definition leadingSpace (s : list ascii) : option (list ascii) :=
  List.find (fun e => hasPrefix e s) unicode.spaceRunes.
Definition trailingSpace (s : list ascii) : option (list ascii) :=
  List.find (fun e => hasSuffix e s) unicode.spaceRunes.

Fixpoint trimLeft (fuel : nat) (s : list ascii) : list ascii :=
  match fuel with
  | O => s
  | S fuel' =>
      match leadingSpace s with
      | Some e => trimLeft fuel' (drop (length e) s)
      | None => s
      end
  end.

Fixpoint trimRight (fuel : nat) (s : list ascii) : list ascii :=
  match fuel with
  | O => s
  | S fuel' =>
      match trailingSpace s with
      | Some e => trimRight fuel' (take (length s - length e) s)
      | None => s
      end
  end.

(** [strings.TrimSpace]: all leading and trailing white space removed, as
    defined by Unicode.  Every step removes at least one byte, so the
    length of the input is enough fuel. *)
Definition TrimSpace (s : string) : string :=
  let b := to_bytes s in
  let l := trimLeft (length b) b in
  of_bytes (trimRight (length l) l).

(** [strings.Index]: position of the first instance of [substr] in [s]. *)
Fixpoint index (substr s : list ascii) : option nat :=
  if hasPrefix substr s then Some O
  else match s with
       | [] => None
       | _ :: s' => S <$> index substr s'
       end.

Definition Index (s substr : string) : option nat :=
  index (to_bytes substr) (to_bytes s).

(** The pieces of [s] between the successive leftmost instances of a
    non-empty [sep]. *)
Fixpoint split (fuel : nat) (sep s : list ascii) : list (list ascii) :=
  match fuel with
  | O => [s]
  | S fuel' =>
      match index sep s with
      | Some m => take m s :: split fuel' sep (drop (m + length sep) s)
      | None => [s]
      end
  end.

Fixpoint join (sep : list ascii) (a : list (list ascii)) : list ascii :=
  match a with
  | [] => []
  | [x] => x
  | x :: rest => x ++ sep ++ join sep rest
  end.

(** [strings.Split] for a non-empty separator, as at its call site in the
    providers.  (With an empty separator Go splits after each UTF-8
    sequence; that case is not part of this development and the string is
    returned whole.) *)
Definition Split (s sep : string) : list string :=
  match sep with
  | EmptyString => [s]
  | _ => of_bytes <$> split (len s) (to_bytes sep) (to_bytes s)
  end.

Definition Join (a : list string) (sep : string) : string :=
  of_bytes (join (to_bytes sep) (to_bytes <$> a)).

Fixpoint replaceAll (fuel : nat) (old new s : list ascii) : list ascii :=
  match fuel with
  | O => s
  | S fuel' =>
      match index old s with
      | Some j => take j s ++ new ++ replaceAll fuel' old new (drop (j + length old) s)
      | None => s
      end
  end.

(** [strings.ReplaceAll] for a non-empty [old], as at its call site in the
    providers.  (With an empty [old] Go inserts [new] at every rune
    boundary; that case is not part of this development and the string is
    returned unchanged.) *)
Definition ReplaceAll (s old new : string) : string :=
  match old with
  | EmptyString => s
  | _ => of_bytes (replaceAll (len s) (to_bytes old) (to_bytes new) (to_bytes s))
  end.

End strings.

Local Close Scope N_scope.


(** ** Values shared by the packages *)

(** A Go [error], identified with its message. *)
Definition error := string.

(** [os.Getenv]: the value of the variable, empty when it is not set. *)
Definition Getenv (env : gmap string string) (key : string) : string :=
  default "" (env !! key).

Module url.

(** The fields of [net/url.URL] the providers read. *)
Record URL := mkURL {
  Scheme : string;
  Host : string;
  Path : string;
  RawQuery : string;
  Fragment : string
}.

(** [stringContainsCTLByte]: a byte below 0x20 or equal to 0x7f. *)
Definition stringContainsCTLByte (s : string) : bool :=
  existsb (fun c => (N_of_ascii c <? 0x20)%N || (N_of_ascii c =? 0x7f)%N)
          (to_bytes s).

(** The part of a raw URL before its fragment: [strings.Cut(rawURL, "#")]. *)
Definition beforeFragment (rawURL : string) : string :=
  match strings.Index rawURL "#" with
  | Some i => of_bytes (take i (to_bytes rawURL))
  | None => rawURL
  end.

End url.

Module http.

(** An HTTP client: the default one, or one that [oauth2.NewClient] built
    around a static access token. *)
Inductive Client :=
| DefaultClient
| oauth2_NewClient (AccessToken : string).

(** A response; [Body] is what [io.ReadAll] yields on its body, the bytes
    or a read error. *)
Record Response := mkResponse {
  StatusCode : Z;
  Body : string + error
}.

Definition StatusNotFound : Z := 404.

End http.

Module github.

(** [github.Response]; it embeds the HTTP response, whose status code is
    all the providers look at. *)
Record Response := mkResponse { StatusCode : Z }.

Record ReleaseAsset := mkReleaseAsset {
  ReleaseAsset_Name : option string;
  ReleaseAsset_URL : option string
}.

Record RepositoryRelease := mkRelease {
  TagName : option string;
  HTMLURL : option string;
  Assets : list ReleaseAsset
}.

(** The nil-safe accessors of go-github: the zero value for a nil field.
    (An element of an asset slice that is itself nil answers both
    accessors like an asset without name and URL.) *)
Definition GetName (a : ReleaseAsset) : string := default "" (ReleaseAsset_Name a).
Definition GetURL (a : ReleaseAsset) : string := default "" (ReleaseAsset_URL a).

(** On a release the accessors take the pointer, which may itself be nil. *)
Definition GetTagName (r : option RepositoryRelease) : string :=
  default "" (r ≫= TagName).
Definition GetHTMLURL (r : option RepositoryRelease) : string :=
  default "" (r ≫= HTMLURL).

(** An API client, identified by how it was built: [github.NewClient] or
    [github.NewEnterpriseClient], each around an optional (possibly nil)
    HTTP client. *)
Inductive Client :=
| NewClient (httpClient : option http.Client)
| EnterpriseClient (baseURL uploadURL : string) (httpClient : option http.Client).

(** What a call of the Releases API returns: release, response, error,
    each of which may be nil. *)
Definition APIResult : Type :=
  option RepositoryRelease * option Response * option error.

End github.

Module assets.

(** Modelled from the spec: the types of [pkg/assets], whose declarations
    are not part of the sources at hand.  An asset is a named,
    URL-addressed candidate. *)
Record Asset := mkAsset {
  Asset_Name : string;
  Asset_URL : string
}.

(** Modelled from the spec: an asset augmented with the extra headers the
    download step sends. *)
Record FilteredAsset := mkFilteredAsset {
  FilteredAsset_Name : string;
  FilteredAsset_URL : string;
  ExtraHeaders : gmap string string
}.

(** Modelled from the spec: the options the selection and download
    collaborator is constructed with. *)
Record FilterOpts := mkFilterOpts {
  SkipScoring : bool;
  FilterOpts_PackagePath : string;
  SkipPathCheck : bool;
  FilterOpts_PackageName : string
}.

(** Modelled from the spec: the result of the download step. *)
Record OutFile := mkOutFile {
  Source : string;
  OutFile_Name : string;
  OutFile_PackagePath : string
}.

Record Filter := mkFilter { opts : FilterOpts }.
Definition NewFilter (o : FilterOpts) : Filter := mkFilter o.

End assets.

(** Modelled from the spec: the options of a fetch, declared next to the
    [Provider] interface, which is not part of the sources at hand. *)
Record FetchOpts := mkFetchOpts {
  All : bool;
  PackagePath : string;
  SkipPatchCheck : bool;
  PackageName : string;
  Version : string
}.

(** Modelled from the spec: the result of a fetch.  [File_Data] stands for
    the byte stream by the bytes it delivers. *)
Record File := mkFile {
  File_Data : string;
  File_Name : string;
  File_Version : string;
  File_PackagePath : string
}.

(** ** The world outside the providers *)

Record World := mkWorld {
  (** [net/url]: [url.Parse] and the [String] method of a URL. *)
  url_Parse : string -> url.URL + error;
  URL_String : url.URL -> string;
  (** [url.Parse] starts by rejecting a raw URL that has an ASCII control
      byte before its fragment. *)
  url_Parse_ctl : forall rawURL,
    url.stringContainsCTLByte (url.beforeFragment rawURL) = true ->
    exists e, url_Parse rawURL = inr e;
  (** [net/http]: the [Get] method of a client. *)
  http_Get : http.Client -> string -> http.Response + error;
  (** [path/filepath]: [filepath.Base], which depends on the platform. *)
  filepath_Base : string -> string;
  (** [go-github]: whether [github.NewEnterpriseClient] rejects its two
      URLs, and the two calls of the Releases API by client, owner,
      repository (and tag). *)
  NewEnterpriseClient_err : string -> string -> option error;
  GetReleaseByTag : github.Client -> string -> string -> string -> github.APIResult;
  GetLatestRelease : github.Client -> string -> string -> github.APIResult;
  (** [pkg/assets]: selection among the candidates, and download. *)
  FilterAssets : assets.Filter -> string -> list assets.Asset -> assets.FilteredAsset + error;
  ProcessURL : assets.Filter -> assets.FilteredAsset -> assets.OutFile + error
}.

(** [github.NewEnterpriseClient(baseURL, uploadURL, httpClient)]. *)
Definition NewEnterpriseClient (W : World) (baseURL uploadURL : string)
    (httpClient : option http.Client) : github.Client + error :=
  match NewEnterpriseClient_err W baseURL uploadURL with
  | Some e => inr e
  | None => inl (github.EnterpriseClient baseURL uploadURL httpClient)
  end.

(** ** Programs: receiver state, trace, and three outcomes *)

Inductive Level := Debug | Info | Warn.

Inductive event :=
| Log (lvl : Level) (msg : string)
| CallHTTPGet (c : http.Client) (rawURL : string)
| CallGetReleaseByTag (c : github.Client) (owner repo tag : string)
| CallGetLatestRelease (c : github.Client) (owner repo : string)
| CallFilterAssets (f : assets.Filter) (repoName : string) (candidates : list assets.Asset)
| CallProcessURL (f : assets.Filter) (a : assets.FilteredAsset).

Inductive outcome (A : Type) :=
| Ok (a : A)
| Err (e : error)
| Panic (msg : string).
Arguments Ok {A} a.
Arguments Err {A} e.
Arguments Panic {A} msg.

(** A method with receiver of type [R]: from the receiver and the trace so
    far to an outcome, the receiver as the method leaves it, and the
    extended trace (most recent event last). *)
Definition Prog (R A : Type) : Type :=
  R -> list event -> outcome A * R * list event.

Definition ret {R A} (a : A) : Prog R A := fun r t => (Ok a, r, t).

Definition bind {R A B} (m : Prog R A) (k : A -> Prog R B) : Prog R B :=
  fun r t =>
    match m r t with
    | (Ok a, r', t') => k a r' t'
    | (Err e, r', t') => (Err e, r', t')
    | (Panic msg, r', t') => (Panic msg, r', t')
    end.

Global Instance Prog_ret {R} : MRet (Prog R) := fun A => @ret R A.
Global Instance Prog_bind {R} : MBind (Prog R) := fun A B k m => bind m k.

Definition throw {R A} (e : error) : Prog R A := fun r t => (Err e, r, t).
Definition panic {R A} (msg : string) : Prog R A := fun r t => (Panic msg, r, t).
Definition self {R} : Prog R R := fun r t => (Ok r, r, t).
Definition store {R} (r : R) : Prog R unit := fun _ t => (Ok tt, r, t).
Definition emit {R} (ev : event) : Prog R unit := fun r t => (Ok tt, r, t ++ [ev]).

(** A Go call returning [(value, error)]. *)
Definition call {R A} (x : A + error) : Prog R A :=
  match x with inl a => ret a | inr e => throw e end.

(** Reading through a pointer that may be nil. *)
Definition nilDeref : string := "invalid memory address or nil pointer dereference".
Definition deref {R A} (p : option A) : Prog R A :=
  match p with Some a => ret a | None => panic nilDeref end.

Definition Debugf {R} (msg : string) : Prog R unit := emit (Log Debug msg).
Definition Infof {R} (msg : string) : Prog R unit := emit (Log Info msg).
Definition Warnf {R} (msg : string) : Prog R unit := emit (Log Warn msg).

(** ** The generic provider *)

Module generic.

Record t := mk {
  url : string;
  versionURL : url.URL;
  client : http.Client
}.

Section methods.
Context (W : World).

(** GetLatestVersion checks the version url and returns the
    corresponding name and url to fetch the version.  (The deferred close
    of the response body leaves nothing to observe here.) *)
Definition GetLatestVersion : Prog t (string * string) :=
  g ← self;
  Debugf ("Getting version from " +:+ URL_String W (versionURL g));;
  emit (CallHTTPGet (client g) (URL_String W (versionURL g)));;
  resp ← call (http_Get W (client g) (URL_String W (versionURL g)));
  content ← call (http.Body resp);
  let version := strings.TrimSpace content in
  let versionURLString := strings.ReplaceAll (url g) "{version}" version in
  versionURL ← call (url_Parse W versionURLString);
  ret (version, URL_String W versionURL).

Definition Fetch (opts : FetchOpts) : Prog t File :=
  '(version, versionURL) ← GetLatestVersion;
  let f := assets.NewFilter
             (assets.mkFilterOpts (All opts) (PackagePath opts)
                                  (SkipPatchCheck opts) (PackageName opts)) in
  let gf := assets.mkFilteredAsset "" versionURL ∅ in
  emit (CallProcessURL f gf);;
  outFile ← call (ProcessURL W f gf);
  (* Set default name to last url path element if none was provided by the filter *)
  let name := if bool_decide (assets.OutFile_Name outFile = "")
              then filepath_Base W (assets.FilteredAsset_URL gf)
              else assets.OutFile_Name outFile in
  ret (mkFile (assets.Source outFile) name version
              (assets.OutFile_PackagePath outFile)).

Definition GetID (g : t) : string := "generic".


End methods.

End generic.

(** ** The GitHub provider *)

Module gitHub.

Record t := mk {
  url : url.URL;
  client : github.Client;
  owner : string;
  repo : string;
  tag : string;
  asset : string;
  token : string
}.

(** The assignment [g.tag = v]. *)
Definition set_tag (v : string) (g : t) : t :=
  mk (url g) (client g) (owner g) (repo g) v (asset g) (token g).

Definition toAsset (a : github.ReleaseAsset) : assets.Asset :=
  assets.mkAsset (github.GetName a) (github.GetURL a).

(** The loop of [getCandidates]: the candidates gathered so far and
    whether the requested asset was found. *)
Fixpoint getCandidates_loop (githubAssets : list github.ReleaseAsset)
    (userAsset : string) (candidates : list assets.Asset)
    (foundUserAsset : bool) : list assets.Asset * bool :=
  match githubAssets with
  | [] => (candidates, foundUserAsset)
  | a :: rest =>
      if bool_decide (userAsset ≠ "") && bool_decide (github.GetName a = userAsset)
      then ([toAsset a], true)
      else getCandidates_loop rest userAsset (candidates ++ [toAsset a]) foundUserAsset
  end.

(** getCandidates returns a list of assets to be used as candidates for
    filtering.  If userAsset is provided, it will try to find that asset
    and return it as the only candidate. *)
Definition getCandidates {R} (githubAssets : list github.ReleaseAsset)
    (userAsset : string) : Prog R (list assets.Asset) :=
  let '(candidates, foundUserAsset) :=
    getCandidates_loop githubAssets userAsset [] false in
  (if bool_decide (userAsset ≠ "") && negb foundUserAsset
   then Warnf ("asset " +:+ userAsset +:+ " not found in release")
   else ret tt);;
  ret candidates.

Section methods.
Context (W : World).

(** The first part of [Fetch], up to the check of the error: the release
    lookup, by tag when the provider has one or the options name a version
    (which is then stored in the tag of the provider), of the latest
    release otherwise; it yields the release and the error [Fetch] goes on
    with. *)
Definition lookupRelease (opts : FetchOpts)
    : Prog t (option github.RepositoryRelease * option error) :=
  g ← self;
  if (0 <? len (tag g))%nat || (0 <? len (Version opts))%nat then
    (if (0 <? len (Version opts))%nat
     then store (set_tag (Version opts) g)
     else ret tt);;
    g ← self;
    Infof ("Getting " +:+ tag g +:+ " release for " +:+ owner g +:+ "/" +:+ repo g);;
    emit (CallGetReleaseByTag (client g) (owner g) (repo g) (tag g));;
    let '(release, _, err) :=
      GetReleaseByTag W (client g) (owner g) (repo g) (tag g) in
    ret (release, err)
  else
    Infof ("Getting latest release for " +:+ owner g +:+ "/" +:+ repo g);;
    emit (CallGetLatestRelease (client g) (owner g) (repo g));;
    let '(release, resp, err) :=
      GetLatestRelease W (client g) (owner g) (repo g) in
    resp ← deref resp;
    if bool_decide (github.StatusCode resp = http.StatusNotFound)
    then ret (release,
              Some ("repository " +:+ owner g +:+ "/" +:+ repo g
                    +:+ " does not have releases"))
    else ret (release, err).

Definition Fetch (opts : FetchOpts) : Prog t File :=
  '(release, err) ← lookupRelease opts;
  match err with
  | Some err => throw err
  | None =>
      g ← self;
      r ← deref release;
      candidates ← getCandidates (github.Assets r) (asset g);
      let f := assets.NewFilter
                 (assets.mkFilterOpts (All opts) (PackagePath opts)
                                      (SkipPatchCheck opts) (PackageName opts)) in
      emit (CallFilterAssets f (repo g) candidates);;
      gf ← call (FilterAssets W f (repo g) candidates);
      let headers : gmap string string :=
        {[ "Accept" := "application/octet-stream" ]} in
      let headers :=
        if bool_decide (token g ≠ "")
        then <[ "Authorization" := "token " +:+ token g ]> headers
        else headers in
      let gf := assets.mkFilteredAsset (assets.FilteredAsset_Name gf)
                                       (assets.FilteredAsset_URL gf) headers in
      emit (CallProcessURL f gf);;
      outFile ← call (ProcessURL W f gf);
      let version := github.GetTagName release in
      ret (mkFile (assets.Source outFile) (assets.OutFile_Name outFile)
                  version (assets.OutFile_PackagePath outFile))
  end.

(** GetLatestVersion checks the latest repo release and returns the
    corresponding name and url to fetch the version. *)
Definition GetLatestVersion : Prog t (string * string) :=
  g ← self;
  Debugf ("Getting latest release for " +:+ owner g +:+ "/" +:+ repo g);;
  emit (CallGetLatestRelease (client g) (owner g) (repo g));;
  let '(release, _, err) := GetLatestRelease W (client g) (owner g) (repo g) in
  match err with
  | Some err => throw err
  | None => ret (github.GetTagName release, github.GetHTMLURL release)
  end.

Definition GetID (g : t) : string := "github".

Definition newGitHub (env : gmap string string) (u : url.URL) : t + error :=
  let splitedPath := strings.Split (url.Path u) "/" in
  if (length splitedPath <? 3)%nat then
    inr ("error parsing Github URL " +:+ URL_String W u
         +:+ ", can't find owner and repo")
  else
    (* Github repository owner and name are always the 2nd and 3rd path elements *)
    let owner := splitedPath !!! 1%nat in
    let repo := splitedPath !!! 2%nat in
    (* If the URL is a release or download URL, try to get the tag and
       asset name; otherwise, latest release will be used *)
    let '(tag, asset) :=
      if (5 <? length splitedPath)%nat
         && bool_decide (splitedPath !!! 3%nat = "releases")
      then (splitedPath !!! 5%nat,
            if (6 <? length splitedPath)%nat
               && bool_decide (splitedPath !!! 4%nat = "download")
            then splitedPath !!! 6%nat
            else "")
      else ("", "") in
    let token := Getenv env "GITHUB_AUTH_TOKEN" in
    let token := if (len token =? 0)%nat then Getenv env "GITHUB_TOKEN" else token in
    (* GHES client *)
    let gbu := Getenv env "GHES_BASE_URL" in
    let guu := Getenv env "GHES_UPLOAD_URL" in
    let gau := Getenv env "GHES_AUTH_TOKEN" in
    let ghes := (0 <? len gbu)%nat && (0 <? len guu)%nat && (0 <? len gau)%nat in
    let tc :=
      if ghes then Some (http.oauth2_NewClient gau)
      else if bool_decide (token ≠ "") then Some (http.oauth2_NewClient token)
      else None in
    match (if ghes then NewEnterpriseClient W gbu guu tc
           else inl (github.NewClient tc)) with
    | inr err => inr ("error initializing GHES client " +:+ err)
    | inl client => inl (mk u client owner repo tag asset token)
    end.

End methods.

End gitHub.

(** ** A small world to run the providers in

    A URL codec that agrees with [net/url] on plain [scheme://host/path]
    URLs (no user, port, escape, query or fragment), canned answers for the
    remote services, a selection step that takes the first candidate and a
    download step that names the file after the asset. *)

Module fake.

Definition Parse (rawURL : string) : url.URL + error :=
  if url.stringContainsCTLByte (url.beforeFragment rawURL)
  then inr "net/url: invalid control character in URL"
  else
    match strings.Index rawURL "://" with
    | None => inl (url.mkURL "" "" rawURL "" "")
    | Some i =>
        let scheme := of_bytes (take i (to_bytes rawURL)) in
        let rest := drop (i + 3) (to_bytes rawURL) in
        match strings.index (to_bytes "/") rest with
        | None => inl (url.mkURL scheme (of_bytes rest) "" "" "")
        | Some j =>
            inl (url.mkURL scheme (of_bytes (take j rest)) (of_bytes (drop j rest)) "" "")
        end
    end.

Definition Render (u : url.URL) : string :=
  if bool_decide (url.Scheme u = "") then url.Path u
  else url.Scheme u +:+ "://" +:+ url.Host u +:+ url.Path u.

Definition Parse_ctl (rawURL : string)
    (H : url.stringContainsCTLByte (url.beforeFragment rawURL) = true)
    : exists e, Parse rawURL = inr e.
Proof. unfold Parse. rewrite H. eauto. Defined.

Definition Base (path : string) : string :=
  default "." (last (strings.Split path "/")).

Definition firstCandidate (f : assets.Filter) (repoName : string)
    (candidates : list assets.Asset) : assets.FilteredAsset + error :=
  match candidates with
  | a :: _ => inl (assets.mkFilteredAsset (assets.Asset_Name a) (assets.Asset_URL a) ∅)
  | [] => inr "no candidates"
  end.

Definition download (f : assets.Filter) (a : assets.FilteredAsset)
    : assets.OutFile + error :=
  inl (assets.mkOutFile "ELF" (assets.FilteredAsset_Name a)
                        (assets.FilterOpts_PackagePath (assets.opts f))).

(** The world in which the version endpoint answers [page], the Releases
    API answers [byTag] to a lookup by tag and [latest] to a lookup of the
    latest release, and the enterprise client is rejected with [ghes]. *)
Definition world (page : http.Response + error)
    (byTag latest : github.APIResult) (ghes : option error) : World :=
  {| url_Parse := Parse;
     URL_String := Render;
     url_Parse_ctl := Parse_ctl;
     http_Get := fun _ _ => page;
     filepath_Base := Base;
     NewEnterpriseClient_err := fun _ _ => ghes;
     GetReleaseByTag := fun _ _ _ _ => byTag;
     GetLatestRelease := fun _ _ _ => latest;
     FilterAssets := firstCandidate;
     ProcessURL := download |}.

Definition noAnswer : github.APIResult := (None, None, Some "unused").
Definition noPage : http.Response + error := inr "unused".

(** A world for construction only. *)
Definition offline : World := world noPage noAnswer noAnswer None.

End fake.

(** * Vocabulary of the specification *)

(** ** White space and substrings *)

(** A byte sequence made of white-space runes only. *)
Inductive AllSpace : list ascii -> Prop :=
| AllSpace_nil : AllSpace []
| AllSpace_rune e s : e ∈ unicode.spaceRunes -> AllSpace s -> AllSpace (e ++ s).

(** The string consists of white space only; it starts, or ends, with a
    white-space rune. *)
Definition WhiteSpace (s : string) : Prop := AllSpace (to_bytes s).
Definition StartsWithSpace (s : string) : Prop :=
  exists e rest, e ∈ unicode.spaceRunes /\ to_bytes s = e ++ rest.
Definition EndsWithSpace (s : string) : Prop :=
  exists e rest, e ∈ unicode.spaceRunes /\ to_bytes s = rest ++ e.

(** [sub] occurs in [s], as byte sequences and as strings. *)
Definition Contains (sub s : list ascii) : Prop :=
  exists p rest, s = p ++ sub ++ rest.
Definition Occurs (sub s : string) : Prop := Contains (to_bytes sub) (to_bytes s).

(** ** Runs of a program *)

Definition outcome_of {R A} (x : outcome A * R * list event) : outcome A := x.1.1.
Definition receiver_of {R A} (x : outcome A * R * list event) : R := x.1.2.
Definition trace_of {R A} (x : outcome A * R * list event) : list event := x.2.

Ltac run :=
  unfold mbind, mret, Prog_bind, Prog_ret, bind, ret, throw, panic, self, store,
    emit, call, deref, Debugf, Infof, Warnf in *; simpl in *.

(** ** The GitHub provider *)

(** The events of a lookup by tag, and of a lookup of the latest release. *)
Definition byTagLog (g : gitHub.t) (tag : string) : list event :=
  [Log Info ("Getting " +:+ tag +:+ " release for "
             +:+ gitHub.owner g +:+ "/" +:+ gitHub.repo g);
   CallGetReleaseByTag (gitHub.client g) (gitHub.owner g) (gitHub.repo g) tag].

Definition latestLog (g : gitHub.t) : list event :=
  [Log Info ("Getting latest release for "
             +:+ gitHub.owner g +:+ "/" +:+ gitHub.repo g);
   CallGetLatestRelease (gitHub.client g) (gitHub.owner g) (gitHub.repo g)].

Definition noReleases (g : gitHub.t) : error :=
  "repository " +:+ gitHub.owner g +:+ "/" +:+ gitHub.repo g
  +:+ " does not have releases".

(** The first asset of the release with the requested name, if a name was
    requested. *)
Definition requested (userAsset : string)
    (githubAssets : list github.ReleaseAsset) : option github.ReleaseAsset :=
  List.find (fun a => bool_decide (userAsset ≠ "")
                      && bool_decide (github.GetName a = userAsset))
            githubAssets.

(** The filter [Fetch] builds from its options. *)
Definition filterOf (opts : FetchOpts) : assets.Filter :=
  assets.NewFilter (assets.mkFilterOpts (All opts) (PackagePath opts)
                                        (SkipPatchCheck opts) (PackageName opts)).

(** The headers [Fetch] sends with the download. *)
Definition downloadHeaders (g : gitHub.t) : gmap string string :=
  if bool_decide (gitHub.token g ≠ "")
  then <[ "Authorization" := "token " +:+ gitHub.token g ]>
         {[ "Accept" := "application/octet-stream" ]}
  else {[ "Accept" := "application/octet-stream" ]}.

Definition withHeaders (g : gitHub.t) (gf : assets.FilteredAsset)
    : assets.FilteredAsset :=
  assets.mkFilteredAsset (assets.FilteredAsset_Name gf)
                         (assets.FilteredAsset_URL gf) (downloadHeaders g).

(** The candidates of a release and the events of their enumeration. *)
Definition candidatesOf (g : gitHub.t) (r : github.RepositoryRelease)
    : list assets.Asset :=
  match requested (gitHub.asset g) (github.Assets r) with
  | Some a => [gitHub.toAsset a]
  | None => gitHub.toAsset <$> github.Assets r
  end.

Definition candidatesLog (g : gitHub.t) (r : github.RepositoryRelease)
    : list event :=
  match requested (gitHub.asset g) (github.Assets r) with
  | Some a => []
  | None => if bool_decide (gitHub.asset g ≠ "")
            then [Log Warn ("asset " +:+ gitHub.asset g +:+ " not found in release")]
            else []
  end.

(** The tag [Fetch] looks up: the version of the options if there is one,
    the tag of the provider otherwise. *)
Definition effectiveTag (opts : FetchOpts) (g : gitHub.t) : string :=
  if bool_decide (Version opts ≠ "") then Version opts else gitHub.tag g.

(** The answer of the Releases API to the lookup [Fetch] makes. *)
Definition answer (W : World) (opts : FetchOpts) (g : gitHub.t) : github.APIResult :=
  if bool_decide (effectiveTag opts g ≠ "")
  then GetReleaseByTag W (gitHub.client g) (gitHub.owner g) (gitHub.repo g)
                       (effectiveTag opts g)
  else GetLatestRelease W (gitHub.client g) (gitHub.owner g) (gitHub.repo g).

(** The events that are calls of the Releases API. *)
Definition isReleaseCall (ev : event) : bool :=
  match ev with
  | CallGetReleaseByTag _ _ _ _ | CallGetLatestRelease _ _ _ => true
  | _ => false
  end.

(** The personal token: GITHUB_AUTH_TOKEN, else GITHUB_TOKEN. *)
Definition personalToken (env : gmap string string) : string :=
  if bool_decide (Getenv env "GITHUB_AUTH_TOKEN" ≠ "")
  then Getenv env "GITHUB_AUTH_TOKEN"
  else Getenv env "GITHUB_TOKEN".

(** The three variables of an enterprise server are all set. *)
Definition enterprise (env : gmap string string) : Prop :=
  Getenv env "GHES_BASE_URL" <> "" /\ Getenv env "GHES_UPLOAD_URL" <> "" /\
  Getenv env "GHES_AUTH_TOKEN" <> "".

Global Instance enterprise_dec env : Decision (enterprise env).
Proof. unfold enterprise. apply _. Defined.

(** The segments of the path of a URL. *)
Definition segments (u : url.URL) : list string := strings.Split (url.Path u) "/".

(** ** The generic provider *)

(** The address of the version endpoint, and the events of asking it. *)
Definition endpoint (W : World) (g : generic.t) : string :=
  URL_String W (generic.versionURL g).

Definition askLog (W : World) (g : generic.t) : list event :=
  [Log Debug ("Getting version from " +:+ endpoint W g);
   CallHTTPGet (generic.client g) (endpoint W g)].

(** The template with the version substituted. *)
Definition substituted (g : generic.t) (version : string) : string :=
  strings.ReplaceAll (generic.url g) "{version}" version.

(** ** Single bytes and calls *)

(** How often the byte [c] occurs in a string. *)
Definition countByte (c : ascii) (s : string) : nat :=
  count_occ ascii_dec (to_bytes s) c.

(** The string made of the byte [c]. *)
Definition byteString (c : ascii) : string := String c "".

(** The call of the Releases API [Fetch] makes for its options and receiver. *)
Definition releaseCall (opts : FetchOpts) (g : gitHub.t) : event :=
  if bool_decide (effectiveTag opts g ≠ "")
  then CallGetReleaseByTag (gitHub.client g) (gitHub.owner g) (gitHub.repo g)
                           (effectiveTag opts g)
  else CallGetLatestRelease (gitHub.client g) (gitHub.owner g) (gitHub.repo g).

(** The provider as [Fetch] leaves it. *)
Definition afterFetch (opts : FetchOpts) (g : gitHub.t) : gitHub.t :=
  if bool_decide (Version opts ≠ "") then gitHub.set_tag (Version opts) g else g.

(** Trimming at the left, and at the right, with all the fuel it needs. *)
Definition trimL (s : list ascii) : list ascii := strings.trimLeft (length s) s.
Definition trimR (s : list ascii) : list ascii := strings.trimRight (length s) s.

(** ** Scenarios *)

Module scenario.

Definition LF : string := String "010" "".

(** The repository URLs of the supported shapes, and one without repository. *)
Definition repoURL : url.URL :=
  url.mkURL "https" "github.com" "/owner/repo" "" "".
Definition tagURL : url.URL :=
  url.mkURL "https" "github.com" "/owner/repo/releases/tag/v1.2.3" "" "".
Definition downloadURL : url.URL :=
  url.mkURL "https" "github.com"
            "/owner/repo/releases/download/v1.2.3/tool-linux-amd64" "" "".
Definition ownerURL : url.URL :=
  url.mkURL "https" "github.com" "/owner" "" "".

(** Providers for owner/repo: without tag, and with the tag v1.2.3. *)
Definition latestProvider : gitHub.t :=
  gitHub.mk repoURL (github.NewClient None) "owner" "repo" "" "" "".
Definition taggedProvider : gitHub.t :=
  gitHub.mk tagURL (github.NewClient None) "owner" "repo" "v1.2.3" "" "".

Definition noOpts : FetchOpts := mkFetchOpts false "" false "" "".
Definition ensureOpts : FetchOpts := mkFetchOpts false "" false "" "v2.0.0".

(** A release with three assets. *)
Definition threeAssets : list github.ReleaseAsset :=
  [github.mkReleaseAsset (Some "a.tar.gz") (Some "https://api.github.com/assets/1");
   github.mkReleaseAsset (Some "a-linux") (Some "https://api.github.com/assets/2");
   github.mkReleaseAsset (Some "a-darwin") (Some "https://api.github.com/assets/3")].

Definition release (tagName : option string) : github.RepositoryRelease :=
  github.mkRelease tagName (Some "https://github.com/owner/repo/releases/x")
                   threeAssets.

(** Worlds by the answer of the Releases API to the lookup of the latest
    release: a release tagged v1.2.3; a release without tag name; status
    404; no response at all. *)
Definition released : World :=
  fake.world fake.noPage
    (Some (release (Some "v2.0.0")), Some (github.mkResponse 200), None)
    (Some (release (Some "v1.2.3")), Some (github.mkResponse 200), None) None.
Definition untagged : World :=
  fake.world fake.noPage fake.noAnswer
    (Some (release None), Some (github.mkResponse 200), None) None.
Definition notFound : World :=
  fake.world fake.noPage fake.noAnswer
    (None, Some (github.mkResponse 404), Some "GET releases/latest: 404 Not Found")
    None.
Definition unreachable : World :=
  fake.world fake.noPage fake.noAnswer
    (None, None, Some "dial tcp: connection refused") None.

(** A generic provider, and worlds by the body its version endpoint answers
    with. *)
Definition tool : generic.t :=
  generic.mk "https://example.com/dl/{version}/tool-{version}.tgz"
             (url.mkURL "https" "example.com" "/version.txt" "" "")
             http.DefaultClient.

Definition answering (body : string) : World :=
  fake.world (inl (http.mkResponse 200 (inl body))) fake.noAnswer fake.noAnswer None.

Definition oneLine : string := " v1.2.3" +:+ LF.
Definition twoLines : string := "v1.2.3" +:+ LF +:+ "v1.2.2" +:+ LF.
Definition blank : string := LF.

(** Environments: both personal tokens; an enterprise server next to a
    personal token. *)
Definition bothTokens : gmap string string :=
  {[ "GITHUB_AUTH_TOKEN" := "A"; "GITHUB_TOKEN" := "B" ]}.
Definition enterpriseEnv : gmap string string :=
  {[ "GHES_BASE_URL" := "https://ghe.example.com/";
     "GHES_UPLOAD_URL" := "https://ghe.example.com/upload/";
     "GHES_AUTH_TOKEN" := "E";
     "GITHUB_TOKEN" := "B" ]}.

(** A world whose lookup by tag fails without a response; a provider with
    a token; an environment with one enterprise variable only; two assets
    of one name; a version endpoint answering with a status; a version URL
    with a line break in it. *)
Definition tagUnreachable : World :=
  fake.world fake.noPage (None, None, Some "dial tcp: connection refused")
             fake.noAnswer None.
Definition tokenProvider : gitHub.t :=
  gitHub.mk repoURL (github.NewClient (Some (http.oauth2_NewClient "A")))
            "owner" "repo" "" "" "A".
Definition partialEnv : gmap string string :=
  {[ "GHES_BASE_URL" := "https://ghe.example.com/"; "GITHUB_TOKEN" := "B" ]}.
Definition twins : list github.ReleaseAsset :=
  [github.mkReleaseAsset (Some "tool") (Some "https://api.github.com/assets/7");
   github.mkReleaseAsset (Some "tool") (Some "https://api.github.com/assets/8")].
Definition answeringWith (code : Z) (body : string) : World :=
  fake.world (inl (http.mkResponse code (inl body))) fake.noAnswer fake.noAnswer None.

End scenario.

(** * Properties *)

(** ** Strings and their bytes *)

Lemma of_to_bytes s : of_bytes (to_bytes s) = s.
Proof. apply string_of_list_ascii_of_string. Qed.

Lemma to_of_bytes l : to_bytes (of_bytes l) = l.
Proof. apply list_ascii_of_string_of_list_ascii. Qed.

Lemma of_bytes_app a b : of_bytes (a ++ b) = of_bytes a +:+ of_bytes b.
Proof.
  unfold of_bytes. induction a as [|c a IH]; [done|].
  change (String c (string_of_list_ascii (a ++ b))
          = String c (string_of_list_ascii a +:+ string_of_list_ascii b)).
  by rewrite IH.
Qed.

Lemma to_bytes_app a b : to_bytes (a +:+ b) = to_bytes a ++ to_bytes b.
Proof.
  rewrite <- (to_of_bytes (to_bytes a ++ to_bytes b)).
  by rewrite of_bytes_app, !of_to_bytes.
Qed.

Lemma len_to_bytes s : length (to_bytes s) = len s.
Proof. induction s; simpl; [done | by f_equal]. Qed.

Lemma len_zero s : len s = 0%nat <-> s = "".
Proof. destruct s; simpl; split; intros; done. Qed.

Lemma len_pos s : (0 <? len s)%nat = bool_decide (s ≠ "").
Proof. by destruct s. Qed.

(** ** White space *)

Lemma AllSpace_app a b : AllSpace a -> AllSpace b -> AllSpace (a ++ b).
Proof.
  induction 1 as [|e s He Hs IH]; intros Hb; [done|].
  rewrite <- app_assoc. constructor; auto.
Qed.

Lemma spaceRunes_nonempty e : e ∈ unicode.spaceRunes -> (0 < length e)%nat.
Proof.
  assert (H : Forall (fun e => (0 < length e)%nat) unicode.spaceRunes).
  { vm_compute. repeat constructor. }
  rewrite Forall_forall in H. apply H.
Qed.

Section trimming.
Import strings.

Lemma hasPrefix_true p s : hasPrefix p s = true <-> exists k, s = p ++ k.
Proof. unfold hasPrefix. by rewrite bool_decide_eq_true. Qed.

Lemma hasSuffix_true p s : hasSuffix p s = true <-> exists k, s = k ++ p.
Proof. unfold hasSuffix. by rewrite bool_decide_eq_true. Qed.

Lemma leadingSpace_Some s e :
  leadingSpace s = Some e ->
  e ∈ unicode.spaceRunes /\ s = e ++ drop (length e) s.
Proof.
  intros H. apply List.find_some in H as [Hin Hp].
  apply hasPrefix_true in Hp as [k ->]. split.
  - by apply list_elem_of_In.
  - by rewrite drop_app_length.
Qed.

Lemma trailingSpace_Some s e :
  trailingSpace s = Some e ->
  e ∈ unicode.spaceRunes /\ s = take (length s - length e) s ++ e.
Proof.
  intros H. apply List.find_some in H as [Hin Hp].
  apply hasSuffix_true in Hp as [k ->]. split.
  - by apply list_elem_of_In.
  - rewrite length_app.
    replace (length k + length e - length e)%nat with (length k) by lia.
    by rewrite take_app_length.
Qed.

Lemma leadingSpace_None s e k :
  leadingSpace s = None -> e ∈ unicode.spaceRunes -> s <> e ++ k.
Proof.
  intros H He ->. apply list_elem_of_In in He.
  pose proof (List.find_none _ _ H _ He) as Hf. simpl in Hf.
  assert (hasPrefix e (e ++ k) = true) by (apply hasPrefix_true; eauto).
  congruence.
Qed.

Lemma trailingSpace_None s e k :
  trailingSpace s = None -> e ∈ unicode.spaceRunes -> s <> k ++ e.
Proof.
  intros H He ->. apply list_elem_of_In in He.
  pose proof (List.find_none _ _ H _ He) as Hf. simpl in Hf.
  assert (hasSuffix e (k ++ e) = true) by (apply hasSuffix_true; eauto).
  congruence.
Qed.

Lemma trimLeft_split n s :
  exists l, s = l ++ trimLeft n s /\ AllSpace l.
Proof.
  revert s. induction n as [|n IH]; intros s; simpl.
  - exists []. split; [done | constructor].
  - destruct (leadingSpace s) as [e|] eqn:He.
    + apply leadingSpace_Some in He as [Hin Hs].
      destruct (IH (drop (length e) s)) as (l & Hl & Hsp).
      exists (e ++ l). split.
      * rewrite <- app_assoc, <- Hl. exact Hs.
      * by constructor.
    + exists []. split; [done | constructor].
Qed.

Lemma trimRight_split n s :
  exists r, s = trimRight n s ++ r /\ AllSpace r.
Proof.
  revert s. induction n as [|n IH]; intros s; simpl.
  - exists []. split; [by rewrite app_nil_r | constructor].
  - destruct (trailingSpace s) as [e|] eqn:He.
    + apply trailingSpace_Some in He as [Hin Hs].
      destruct (IH (take (length s - length e) s)) as (r & Hr & Hsp).
      exists (r ++ e). split.
      * rewrite app_assoc, <- Hr. exact Hs.
      * apply AllSpace_app; [done|].
        rewrite <- (app_nil_r e). constructor; [done | constructor].
    + exists []. split; [by rewrite app_nil_r | constructor].
Qed.

Lemma trimLeft_done n s :
  (length s <= n)%nat -> leadingSpace (trimLeft n s) = None.
Proof.
  revert s. induction n as [|n IH]; intros s Hn; simpl.
  - destruct s; [|simpl in Hn; lia].
    vm_compute. reflexivity.
  - destruct (leadingSpace s) as [e|] eqn:He; [|done].
    apply IH. apply leadingSpace_Some in He as [Hin Hs].
    apply spaceRunes_nonempty in Hin.
    rewrite length_drop. lia.
Qed.

Lemma trimRight_done n s :
  (length s <= n)%nat -> trailingSpace (trimRight n s) = None.
Proof.
  revert s. induction n as [|n IH]; intros s Hn; simpl.
  - destruct s; [|simpl in Hn; lia].
    vm_compute. reflexivity.
  - destruct (trailingSpace s) as [e|] eqn:He; [|done].
    apply IH. apply trailingSpace_Some in He as [Hin Hs].
    apply spaceRunes_nonempty in Hin.
    rewrite length_take. lia.
Qed.

End trimming.

(** [strings.TrimSpace] removes white space at both ends and nothing else:
    the string is the trimmed one between two runs of white space, and the
    trimmed one neither starts nor ends with a white-space rune. *)
Lemma TrimSpace_spec s :
  exists l r,
    s = l +:+ strings.TrimSpace s +:+ r /\
    WhiteSpace l /\ WhiteSpace r /\
    ~ StartsWithSpace (strings.TrimSpace s) /\
    ~ EndsWithSpace (strings.TrimSpace s).
Proof.
  unfold strings.TrimSpace. cbv zeta.
  set (b := to_bytes s).
  set (t1 := strings.trimLeft (length b) b).
  set (t2 := strings.trimRight (length t1) t1).
  destruct (trimLeft_split (length b) b) as (l & Hl & Hls).
  destruct (trimRight_split (length t1) t1) as (r & Hr & Hrs).
  fold t1 in Hl. fold t2 in Hr.
  pose proof (trimLeft_done (length b) b (le_n _)) as Hlead. fold t1 in Hlead.
  pose proof (trimRight_done (length t1) t1 (le_n _)) as Htrail. fold t2 in Htrail.
  exists (of_bytes l), (of_bytes r). repeat split.
  - rewrite <- !of_bytes_app, <- Hr, <- Hl. subst b. by rewrite of_to_bytes.
  - unfold WhiteSpace. by rewrite to_of_bytes.
  - unfold WhiteSpace. by rewrite to_of_bytes.
  - intros (e & rest & He & Heq). rewrite to_of_bytes in Heq.
    apply (leadingSpace_None t1 e (rest ++ r) Hlead He).
    by rewrite Hr, Heq, <- app_assoc.
  - intros (e & rest & He & Heq). rewrite to_of_bytes in Heq.
    by apply (trailingSpace_None t2 e rest Htrail He).
Qed.

Lemma TrimSpace_empty_WhiteSpace s :
  strings.TrimSpace s = "" -> WhiteSpace s.
Proof.
  intros H. destruct (TrimSpace_spec s) as (l & r & Hs & Hl & Hr & _).
  rewrite H in Hs. rewrite Hs. unfold WhiteSpace.
  rewrite !to_bytes_app. simpl. by apply AllSpace_app.
Qed.

(** ** Substrings and replacement *)

Section replacing.
Import strings.

Lemma index_Some sub s m :
  index sub s = Some m ->
  s = take m s ++ sub ++ drop (m + length sub) s /\
  (m <= length s)%nat /\
  forall p rest, s = p ++ sub ++ rest -> (m <= length p)%nat.
Proof.
  revert m. induction s as [|c s IH]; intros m; simpl.
  - destruct (hasPrefix sub []) eqn:Hp; [|done].
    intros [= <-]. apply hasPrefix_true in Hp as [k Hk].
    symmetry in Hk. apply app_eq_nil in Hk as [-> ->].
    repeat split; auto with lia.
  - destruct (hasPrefix sub (c :: s)) eqn:Hp.
    + intros [= <-]. apply hasPrefix_true in Hp as [k Hk].
      repeat split; [|lia|intros; lia].
      simpl. rewrite Hk at 1. f_equal. rewrite Hk. by rewrite drop_app_length.
    + destruct (index sub s) as [m'|] eqn:Hi; [|done].
      intros [= <-]. destruct (IH m' eq_refl) as (Hs & Hle & Hmin).
      repeat split.
      * simpl. f_equal. exact Hs.
      * simpl. lia.
      * intros p rest Heq. destruct p as [|c' p].
        -- exfalso. assert (hasPrefix sub (c :: s) = true); [|congruence].
           apply hasPrefix_true. exists rest. exact Heq.
        -- simpl in Heq. injection Heq as -> Heq.
           specialize (Hmin p rest Heq). simpl. lia.
Qed.

Lemma index_None sub s : index sub s = None -> ~ Contains sub s.
Proof.
  induction s as [|c s IH]; simpl.
  - destruct (hasPrefix sub []) eqn:Hp; [done|]. intros _ (p & rest & Heq).
    symmetry in Heq. apply app_eq_nil in Heq as [-> Heq]. simpl in Heq.
    assert (hasPrefix sub [] = true); [|congruence].
    apply hasPrefix_true. exists rest. by rewrite Heq.
  - destruct (hasPrefix sub (c :: s)) eqn:Hp; [done|].
    destruct (index sub s) eqn:Hi; [done|]. intros _ (p & rest & Heq).
    destruct p as [|c' p].
    + assert (hasPrefix sub (c :: s) = true); [|congruence].
      apply hasPrefix_true. exists rest. exact Heq.
    + simpl in Heq. injection Heq as -> Heq.
      apply IH; [done|]. by exists p, rest.
Qed.

Lemma Contains_index sub s : Contains sub s -> is_Some (index sub s).
Proof.
  intros H. destruct (index sub s) eqn:Hi; [eauto|].
  by apply index_None in Hi.
Qed.

(** The part before the first instance of [sub] does not contain [sub]. *)
Lemma index_take_free sub s m :
  sub <> [] -> index sub s = Some m -> ~ Contains sub (take m s).
Proof.
  intros Hne Hi (p & rest & Heq).
  destruct (index_Some _ _ _ Hi) as (Hs & Hle & Hmin).
  specialize (Hmin p (rest ++ drop m s)).
  assert (Hlen : length (take m s) = (length p + length sub + length rest)%nat).
  { rewrite Heq, !length_app. lia. }
  rewrite length_take in Hlen.
  assert (0 < length sub)%nat by (destruct sub; [done | simpl; lia]).
  enough (m <= length p)%nat by lia.
  apply Hmin. rewrite <- (take_drop m s) at 1. rewrite Heq.
  by rewrite <- !app_assoc.
Qed.

Lemma join_cons sep x rest :
  rest <> [] -> join sep (x :: rest) = x ++ sep ++ join sep rest.
Proof. by destruct rest. Qed.

(** Splitting cuts the string at the successive leftmost instances of the
    separator: the pieces joined by the separator give the string back, and
    none of them contains the separator. *)
Lemma split_spec sep n s :
  sep <> [] -> (length s <= n)%nat ->
  split n sep s <> [] /\
  join sep (split n sep s) = s /\
  Forall (fun p => ~ Contains sep p) (split n sep s).
Proof.
  intros Hne. revert s. induction n as [|n IH]; intros s Hn.
  - destruct s; [|simpl in Hn; lia]. simpl. repeat split; [done|].
    constructor; [|constructor]. intros (p & rest & Heq).
    symmetry in Heq. apply app_eq_nil in Heq as [_ Heq].
    apply app_eq_nil in Heq as [Heq _]. done.
  - simpl. destruct (index sep s) as [m|] eqn:Hi.
    + destruct (index_Some _ _ _ Hi) as (Hs & Hle & _).
      assert (0 < length sep)%nat by (destruct sep; [done | simpl; lia]).
      destruct (IH (drop (m + length sep) s)) as (Hp & Hj & Hf).
      { rewrite length_drop. lia. }
      repeat split; [done| |].
      * rewrite join_cons by done. by rewrite Hj.
      * constructor; [by eapply index_take_free | done].
    + repeat split; [done|]. constructor; [by apply index_None | constructor].
Qed.

(** Replacement joins the same pieces by the new string. *)
Lemma replaceAll_split old new n s :
  replaceAll n old new s = join new (split n old s).
Proof.
  revert s. induction n as [|n IH]; intros s; simpl; [done|].
  destruct (index old s) as [j|]; [|done].
  rewrite IH. destruct (split n old (drop (j + length old) s)) eqn:E; [|done].
  by destruct n; simpl in E; [|destruct (index old _)].
Qed.

Lemma replaceAll_absent old new n s :
  ~ Contains old s -> replaceAll n old new s = s.
Proof.
  intros H. destruct n; [done|]. simpl.
  destruct (index old s) as [j|] eqn:Hi; [|done].
  exfalso. apply H. destruct (index_Some _ _ _ Hi) as (Hs & _).
  eexists _, _. exact Hs.
Qed.

End replacing.

Lemma Join_of_bytes pieces sep :
  strings.Join (of_bytes <$> pieces) sep = of_bytes (strings.join (to_bytes sep) pieces).
Proof.
  unfold strings.Join. f_equal. f_equal.
  rewrite <- list_fmap_compose. rewrite <- (list_fmap_id pieces) at 2.
  apply list_fmap_ext. intros ? x _. simpl. apply to_of_bytes.
Qed.

(** [strings.ReplaceAll], by [strings.Split] and [strings.Join]: the pieces
    of [s] between the instances of [old] are free of [old], joined by
    [old] they give [s], and joined by [new] they give the result. *)
Lemma ReplaceAll_spec s old new :
  old <> "" ->
  let pieces := strings.Split s old in
  s = strings.Join pieces old /\
  Forall (fun p => ~ Occurs old p) pieces /\
  strings.ReplaceAll s old new = strings.Join pieces new.
Proof.
  intros Hne. unfold strings.ReplaceAll, strings.Split.
  destruct old as [|c old]; [done|]. set (o := String c old). cbv zeta.
  destruct (split_spec (to_bytes o) (len s) (to_bytes s)) as (_ & Hj & Hf).
  { done. }
  { by rewrite len_to_bytes. }
  rewrite !Join_of_bytes. split_and!.
  - by rewrite Hj, of_to_bytes.
  - apply Forall_fmap. eapply Forall_impl; [exact Hf|].
    intros p Hp. unfold Occurs. simpl. by rewrite to_of_bytes.
  - by rewrite replaceAll_split.
Qed.

Lemma ReplaceAll_absent s old new :
  ~ Occurs old s -> strings.ReplaceAll s old new = s.
Proof.
  intros H. unfold strings.ReplaceAll. destruct old as [|c old]; [done|].
  rewrite replaceAll_absent by exact H. apply of_to_bytes.
Qed.

(** ** Running programs *)

(** ** Release lookup of the GitHub provider *)

Section lookup.
Context (W : World).
Implicit Types (g : gitHub.t) (opts : FetchOpts) (tr : list event).

Lemma lookupRelease_version opts g tr :
  Version opts <> "" ->
  gitHub.lookupRelease W opts g tr =
    let ans := GetReleaseByTag W (gitHub.client g) (gitHub.owner g)
                               (gitHub.repo g) (Version opts) in
    (Ok (ans.1.1, ans.2), gitHub.set_tag (Version opts) g,
     tr ++ byTagLog g (Version opts)).
Proof.
  intros Hv. unfold gitHub.lookupRelease. run.
  rewrite !len_pos. rewrite (bool_decide_true _ Hv), orb_true_r. simpl.
  destruct (GetReleaseByTag W _ _ _ _) as [[rel resp] err]. simpl.
  by rewrite <- app_assoc.
Qed.

Lemma lookupRelease_tag opts g tr :
  Version opts = "" -> gitHub.tag g <> "" ->
  gitHub.lookupRelease W opts g tr =
    let ans := GetReleaseByTag W (gitHub.client g) (gitHub.owner g)
                               (gitHub.repo g) (gitHub.tag g) in
    (Ok (ans.1.1, ans.2), g, tr ++ byTagLog g (gitHub.tag g)).
Proof.
  intros Hv Ht. unfold gitHub.lookupRelease. run.
  rewrite !len_pos. rewrite (bool_decide_true _ Ht), Hv. simpl.
  destruct (GetReleaseByTag W _ _ _ _) as [[rel resp] err]. simpl.
  by rewrite <- app_assoc.
Qed.

Lemma lookupRelease_latest opts g tr :
  Version opts = "" -> gitHub.tag g = "" ->
  gitHub.lookupRelease W opts g tr =
    match GetLatestRelease W (gitHub.client g) (gitHub.owner g) (gitHub.repo g) with
    | (_, None, _) => (Panic nilDeref, g, tr ++ latestLog g)
    | (rel, Some resp, err) =>
        (Ok (rel, if bool_decide (github.StatusCode resp = http.StatusNotFound)
                  then Some (noReleases g) else err),
         g, tr ++ latestLog g)
    end.
Proof.
  intros Hv Ht. unfold gitHub.lookupRelease. run.
  rewrite !len_pos. rewrite Hv, Ht. simpl.
  destruct (GetLatestRelease W _ _ _) as [[rel [resp|]] err]; simpl;
    [destruct (bool_decide _)|]; simpl; by rewrite <- app_assoc.
Qed.

End lookup.

(** ** Fetch of the GitHub provider *)

Section fetch.
Context (W : World).
Implicit Types (g : gitHub.t) (opts : FetchOpts) (tr : list event).

(** What [Fetch] does once the release lookup has returned. *)
Lemma Fetch_lookup_err opts g tr rel e g' tr' :
  gitHub.lookupRelease W opts g tr = (Ok (rel, Some e), g', tr') ->
  gitHub.Fetch W opts g tr = (Err e, g', tr').
Proof. intros H. unfold gitHub.Fetch. run. by rewrite H. Qed.

Lemma Fetch_lookup_panic opts g tr msg g' tr' :
  gitHub.lookupRelease W opts g tr = (Panic msg, g', tr') ->
  gitHub.Fetch W opts g tr = (Panic msg, g', tr').
Proof. intros H. unfold gitHub.Fetch. run. by rewrite H. Qed.

Lemma Occurs_app_l sub a b : Occurs sub a -> Occurs sub (a +:+ b).
Proof.
  intros (p & rest & H). exists p, (rest ++ to_bytes b).
  by rewrite to_bytes_app, H, <- !app_assoc.
Qed.

Lemma Occurs_app_r sub a b : Occurs sub b -> Occurs sub (a +:+ b).
Proof.
  intros (p & rest & H). exists (to_bytes a ++ p), rest.
  by rewrite to_bytes_app, H, <- !app_assoc.
Qed.

Lemma Occurs_refl s : Occurs s s.
Proof. exists [], []. by rewrite app_nil_r. Qed.

(** C4. On the latest-release path (no tag on the provider, no version in
    the options), when the Releases API answers with status 404 the fetch
    fails with the error "repository owner/repo does not have releases",
    whatever error the API call itself returned; the message contains the
    owner and the repository name. *)
Theorem Fetch_latest_not_found opts g tr rel resp err :
  gitHub.tag g = "" -> Version opts = "" ->
  GetLatestRelease W (gitHub.client g) (gitHub.owner g) (gitHub.repo g)
    = (rel, Some resp, err) ->
  github.StatusCode resp = 404%Z ->
  let msg := "repository " +:+ gitHub.owner g +:+ "/" +:+ gitHub.repo g
             +:+ " does not have releases" in
  outcome_of (gitHub.Fetch W opts g tr) = Err msg /\
  Occurs (gitHub.owner g) msg /\ Occurs (gitHub.repo g) msg.
Proof.
  intros Ht Hv Hans Hst msg. split; [|split].
  - pose proof (lookupRelease_latest W opts g tr Hv Ht) as Hl.
    rewrite Hans in Hl. unfold http.StatusNotFound in Hl.
    rewrite (bool_decide_true _ Hst) in Hl.
    by rewrite (Fetch_lookup_err _ _ _ _ _ _ _ Hl).
  - subst msg. apply Occurs_app_r, Occurs_app_l, Occurs_refl.
  - subst msg. do 3 apply Occurs_app_r. apply Occurs_app_l, Occurs_refl.
Qed.

(** C10. On the latest-release path the status code of the response is
    read before the error is looked at: when the API call returns a nil
    response, [Fetch] stops on a nil-pointer dereference, also when the
    call returned an error; with a response at hand (and a status other
    than 404) that error is what [Fetch] returns. *)
Theorem Fetch_latest_nil_response opts g tr rel resp err :
  gitHub.tag g = "" -> Version opts = "" ->
  GetLatestRelease W (gitHub.client g) (gitHub.owner g) (gitHub.repo g)
    = (rel, resp, err) ->
  (resp = None ->
   outcome_of (gitHub.Fetch W opts g tr) = Panic nilDeref) /\
  (forall r e, resp = Some r -> err = Some e ->
   github.StatusCode r <> 404%Z ->
   outcome_of (gitHub.Fetch W opts g tr) = Err e).
Proof.
  intros Ht Hv Hans.
  pose proof (lookupRelease_latest W opts g tr Hv Ht) as Hl. rewrite Hans in Hl.
  split.
  - intros ->. by rewrite (Fetch_lookup_panic _ _ _ _ _ _ Hl).
  - intros r e -> -> Hst. unfold http.StatusNotFound in Hl.
    rewrite (bool_decide_false _ Hst) in Hl.
    by rewrite (Fetch_lookup_err _ _ _ _ _ _ _ Hl).
Qed.

End fetch.

(** ** Candidate enumeration *)

Section candidates.
Implicit Types (a : github.ReleaseAsset) (userAsset : string).

Lemma getCandidates_loop_eq githubAssets userAsset acc found :
  gitHub.getCandidates_loop githubAssets userAsset acc found =
    match requested userAsset githubAssets with
    | Some a => ([gitHub.toAsset a], true)
    | None => (acc ++ (gitHub.toAsset <$> githubAssets), found)
    end.
Proof.
  revert acc. induction githubAssets as [|a rest IH]; intros acc; simpl.
  - by rewrite app_nil_r.
  - destruct (bool_decide (userAsset ≠ "") && bool_decide (github.GetName a = userAsset));
      [done|].
    rewrite IH. unfold requested. destruct (List.find _ rest); [done|].
    by rewrite <- app_assoc.
Qed.

Lemma getCandidates_eq {R} githubAssets userAsset (r : R) tr :
  gitHub.getCandidates githubAssets userAsset r tr =
    match requested userAsset githubAssets with
    | Some a => (Ok [gitHub.toAsset a], r, tr)
    | None =>
        (Ok (gitHub.toAsset <$> githubAssets), r,
         tr ++ (if bool_decide (userAsset ≠ "")
                then [Log Warn ("asset " +:+ userAsset +:+ " not found in release")]
                else []))
    end.
Proof.
  unfold gitHub.getCandidates. rewrite getCandidates_loop_eq.
  destruct (requested userAsset githubAssets).
  - run. by rewrite andb_false_r.
  - run. destruct (bool_decide (userAsset ≠ "")); simpl; [done|].
    by rewrite app_nil_r.
Qed.

Lemma requested_Some userAsset githubAssets a :
  requested userAsset githubAssets = Some a ->
  a ∈ githubAssets /\ userAsset <> "" /\ github.GetName a = userAsset.
Proof.
  intros H. apply List.find_some in H as [Hin Hm].
  apply andb_true_iff in Hm as [H1 H2].
  apply bool_decide_eq_true in H1, H2. by rewrite list_elem_of_In.
Qed.

Lemma requested_None userAsset githubAssets a :
  requested userAsset githubAssets = None -> userAsset <> "" ->
  a ∈ githubAssets -> github.GetName a <> userAsset.
Proof.
  intros H Hne Hin Heq. apply list_elem_of_In in Hin.
  pose proof (List.find_none _ _ H _ Hin) as Hf. simpl in Hf.
  by rewrite (bool_decide_true _ Hne), (bool_decide_true _ Heq) in Hf.
Qed.

(** C3. The candidates [getCandidates] hands on, for every asset list and
    requested name: with a non-empty name that some asset bears, the single
    asset of that name (the first one in release order) and no warning;
    with a non-empty name that no asset bears, all assets in release order,
    a logged warning and no error; with no name, all assets. *)
Theorem getCandidates_spec {R} (githubAssets : list github.ReleaseAsset)
    userAsset (r : R) (tr : list event) :
  (userAsset <> "" ->
   (exists a, a ∈ githubAssets /\ github.GetName a = userAsset) ->
   exists a, a ∈ githubAssets /\ github.GetName a = userAsset /\
     gitHub.getCandidates githubAssets userAsset r tr
       = (Ok [assets.mkAsset userAsset (github.GetURL a)], r, tr)) /\
  (userAsset <> "" ->
   (forall a, a ∈ githubAssets -> github.GetName a <> userAsset) ->
   gitHub.getCandidates githubAssets userAsset r tr
     = (Ok (gitHub.toAsset <$> githubAssets), r,
        tr ++ [Log Warn ("asset " +:+ userAsset +:+ " not found in release")])) /\
  (userAsset = "" ->
   gitHub.getCandidates githubAssets userAsset r tr
     = (Ok (gitHub.toAsset <$> githubAssets), r, tr)).
Proof.
  rewrite getCandidates_eq. repeat split.
  - intros Hne (a & Hin & Hname).
    destruct (requested userAsset githubAssets) as [b|] eqn:Hreq.
    + apply requested_Some in Hreq as (Hb & _ & Hbn).
      exists b. repeat split; [done..|].
      unfold gitHub.toAsset. by rewrite Hbn.
    + by destruct (requested_None _ _ a Hreq Hne Hin).
  - intros Hne Hnone.
    destruct (requested userAsset githubAssets) as [b|] eqn:Hreq.
    + apply requested_Some in Hreq as (Hb & _ & Hbn). by destruct (Hnone b Hb).
    + by rewrite (bool_decide_true _ Hne).
  - intros ->.
    destruct (requested "" githubAssets) as [b|] eqn:Hreq.
    + by apply requested_Some in Hreq as (_ & ? & _).
    + simpl. by rewrite app_nil_r.
Qed.

End candidates.

(** ** From the release to the file *)

Section materialize.
Context (W : World).
Implicit Types (g : gitHub.t) (opts : FetchOpts) (tr : list event).

Lemma Fetch_lookup_nil opts g tr g' tr' :
  gitHub.lookupRelease W opts g tr = (Ok (None, None), g', tr') ->
  gitHub.Fetch W opts g tr = (Panic nilDeref, g', tr').
Proof. intros H. unfold gitHub.Fetch. run. by rewrite H. Qed.

Lemma Fetch_lookup_ok opts g tr r g' tr' :
  gitHub.lookupRelease W opts g tr = (Ok (Some r, None), g', tr') ->
  gitHub.Fetch W opts g tr =
    let f := filterOf opts in
    let cs := candidatesOf g' r in
    let tr1 := tr' ++ candidatesLog g' r ++ [CallFilterAssets f (gitHub.repo g') cs] in
    match FilterAssets W f (gitHub.repo g') cs with
    | inr e => (Err e, g', tr1)
    | inl gf =>
        let tr2 := tr1 ++ [CallProcessURL f (withHeaders g' gf)] in
        match ProcessURL W f (withHeaders g' gf) with
        | inr e => (Err e, g', tr2)
        | inl outFile =>
            (Ok (mkFile (assets.Source outFile) (assets.OutFile_Name outFile)
                        (github.GetTagName (Some r))
                        (assets.OutFile_PackagePath outFile)), g', tr2)
        end
    end.
Proof.
  intros H. unfold gitHub.Fetch. run. rewrite H.
  pose proof (getCandidates_eq (github.Assets r) (gitHub.asset g') g' tr') as Hc.
  run. rewrite Hc. clear Hc.
  unfold candidatesOf, candidatesLog, withHeaders, downloadHeaders, filterOf.
  destruct (requested (gitHub.asset g') (github.Assets r)) as [a|]; simpl.
  - destruct (FilterAssets W _ _ _) as [gf|e]; simpl;
      [destruct (ProcessURL W _ _) as [out|e]; simpl|];
      by rewrite <- ?app_assoc.
  - destruct (FilterAssets W _ _ _) as [gf|e]; simpl;
      [destruct (ProcessURL W _ _) as [out|e]; simpl|];
      by rewrite <- ?app_assoc.
Qed.

(** The candidates are what [Fetch] hands to the selection step. *)
Lemma Fetch_passes_candidates opts g tr r g' tr' :
  gitHub.lookupRelease W opts g tr = (Ok (Some r, None), g', tr') ->
  CallFilterAssets (filterOf opts) (gitHub.repo g') (candidatesOf g' r)
    ∈ trace_of (gitHub.Fetch W opts g tr).
Proof.
  intros Hl. rewrite (Fetch_lookup_ok _ _ _ _ _ _ Hl). cbv zeta.
  destruct (FilterAssets W _ _ _) as [gf|e];
    [destruct (ProcessURL W _ _) as [out|e]|];
    unfold trace_of; simpl; rewrite !elem_of_app, !list_elem_of_singleton; auto.
Qed.

End materialize.

(** ** Which release is fetched *)

Section choice.
Context (W : World).
Implicit Types (g : gitHub.t) (opts : FetchOpts) (tr : list event).

Lemma lookupRelease_answer opts g tr rel err :
  outcome_of (gitHub.lookupRelease W opts g tr) = Ok (rel, err) ->
  rel = (answer W opts g).1.1.
Proof.
  unfold answer, effectiveTag.
  destruct (decide (Version opts = "")) as [Hv|Hv].
  - destruct (decide (gitHub.tag g = "")) as [Ht|Ht].
    + rewrite (lookupRelease_latest W _ _ _ Hv Ht), Hv, Ht. simpl.
      destruct (GetLatestRelease W _ _ _) as [[r [resp|]] e]; simpl; [|done].
      by intros [= <- _].
    + rewrite (lookupRelease_tag W _ _ _ Hv Ht), Hv. simpl.
      rewrite (bool_decide_true _ Ht). by intros [= <- _].
  - rewrite (lookupRelease_version W _ _ _ Hv). simpl.
    rewrite !(bool_decide_true _ Hv). by intros [= <- _].
Qed.

(** After the lookup [Fetch] leaves the receiver alone and calls the
    Releases API no more. *)
Lemma Fetch_after_lookup opts g tr :
  exists evs,
    trace_of (gitHub.Fetch W opts g tr)
      = trace_of (gitHub.lookupRelease W opts g tr) ++ evs /\
    List.filter isReleaseCall evs = [] /\
    receiver_of (gitHub.Fetch W opts g tr)
      = receiver_of (gitHub.lookupRelease W opts g tr).
Proof.
  destruct (gitHub.lookupRelease W opts g tr) as [[[[[r|] [e|]]|e|msg] g'] tr'] eqn:Hl.
  - rewrite (Fetch_lookup_err W _ _ _ _ _ _ _ Hl). exists []. by rewrite app_nil_r.
  - rewrite (Fetch_lookup_ok W _ _ _ _ _ _ Hl). cbv zeta.
    assert (Hlog : forall l, List.filter isReleaseCall (candidatesLog g' r ++ l)
                             = List.filter isReleaseCall l).
    { intros l. unfold candidatesLog.
      destruct (requested _ _); [done|]. by destruct (bool_decide _). }
    destruct (FilterAssets W _ _ _) as [gf|e]; [destruct (ProcessURL W _ _) as [out|e]|].
    + eexists. rewrite <- !app_assoc. split; [done|]. by rewrite Hlog.
    + eexists. rewrite <- !app_assoc. split; [done|]. by rewrite Hlog.
    + eexists. split; [done|]. by rewrite Hlog.
  - rewrite (Fetch_lookup_err W _ _ _ _ _ _ _ Hl). exists []. by rewrite app_nil_r.
  - rewrite (Fetch_lookup_nil W _ _ _ _ _ Hl). exists []. by rewrite app_nil_r.
  - exists []. unfold gitHub.Fetch. run. rewrite Hl. by rewrite app_nil_r.
  - rewrite (Fetch_lookup_panic W _ _ _ _ _ _ Hl). exists []. by rewrite app_nil_r.
Qed.

(** C5. Which release [Fetch] looks up.  A non-empty version in the options
    wins over the tag parsed at construction, is stored in the tag field of
    the provider, where it stays when the call returns, and the one call of
    the Releases API is a lookup by that tag; with no version but a tag on
    the provider, the one call is a lookup by the tag of the provider, which
    is left as it is; only with neither is the one call a lookup of the
    latest release. *)
Theorem Fetch_release_choice opts g tr :
  exists evs,
    trace_of (gitHub.Fetch W opts g tr) = tr ++ evs /\
    (Version opts <> "" ->
     receiver_of (gitHub.Fetch W opts g tr) = gitHub.set_tag (Version opts) g /\
     List.filter isReleaseCall evs
       = [CallGetReleaseByTag (gitHub.client g) (gitHub.owner g) (gitHub.repo g)
                              (Version opts)]) /\
    (Version opts = "" -> gitHub.tag g <> "" ->
     receiver_of (gitHub.Fetch W opts g tr) = g /\
     List.filter isReleaseCall evs
       = [CallGetReleaseByTag (gitHub.client g) (gitHub.owner g) (gitHub.repo g)
                              (gitHub.tag g)]) /\
    (Version opts = "" -> gitHub.tag g = "" ->
     receiver_of (gitHub.Fetch W opts g tr) = g /\
     List.filter isReleaseCall evs
       = [CallGetLatestRelease (gitHub.client g) (gitHub.owner g) (gitHub.repo g)]).
Proof.
  destruct (Fetch_after_lookup opts g tr) as (evs & Htr & Hno & Hrecv).
  rewrite Htr, Hrecv.
  destruct (decide (Version opts = "")) as [Hv|Hv];
    [destruct (decide (gitHub.tag g = "")) as [Ht|Ht]|].
  - rewrite (lookupRelease_latest W _ _ _ Hv Ht).
    exists (latestLog g ++ evs).
    destruct (GetLatestRelease W _ _ _) as [[r [resp|]] e]; simpl;
      rewrite Hno; (split; [by rewrite <- app_assoc|]);
      split_and!; intros; by try split.
  - rewrite (lookupRelease_tag W _ _ _ Hv Ht).
    exists (byTagLog g (gitHub.tag g) ++ evs). simpl. rewrite Hno.
    split; [by rewrite <- app_assoc|]. split_and!; intros; by try split.
  - rewrite (lookupRelease_version W _ _ _ Hv).
    exists (byTagLog g (Version opts) ++ evs). simpl. rewrite Hno.
    split; [by rewrite <- app_assoc|]. split_and!; intros; by try split.
Qed.

(** A successful [Fetch] had a release and no error from its lookup, which
    left the receiver as it was or with the version of the options as tag. *)
Lemma Fetch_Ok_lookup opts g tr file g' tr' :
  gitHub.Fetch W opts g tr = (Ok file, g', tr') ->
  exists r g1 tr1,
    gitHub.lookupRelease W opts g tr = (Ok (Some r, None), g1, tr1) /\
    (g1 = g \/ g1 = gitHub.set_tag (Version opts) g).
Proof.
  intros HF.
  destruct (gitHub.lookupRelease W opts g tr) as [[[[[r|] [e|]]|e|msg] g1] tr1] eqn:Hl.
  - by rewrite (Fetch_lookup_err W _ _ _ _ _ _ _ Hl) in HF.
  - exists r, g1, tr1. split; [done|].
    destruct (decide (Version opts = "")) as [Hv|Hv];
      [destruct (decide (gitHub.tag g = "")) as [Ht|Ht]|].
    + rewrite (lookupRelease_latest W _ _ _ Hv Ht) in Hl.
      destruct (GetLatestRelease W _ _ _) as [[? [?|]] ?]; simplify_eq; auto.
    + rewrite (lookupRelease_tag W _ _ _ Hv Ht) in Hl. simplify_eq/=; auto.
    + rewrite (lookupRelease_version W _ _ _ Hv) in Hl. simplify_eq/=; auto.
  - by rewrite (Fetch_lookup_err W _ _ _ _ _ _ _ Hl) in HF.
  - by rewrite (Fetch_lookup_nil W _ _ _ _ _ Hl) in HF.
  - unfold gitHub.Fetch in HF. run. by rewrite Hl in HF.
  - by rewrite (Fetch_lookup_panic W _ _ _ _ _ _ Hl) in HF.
Qed.

(** The version of the file a successful [Fetch] returns. *)
Lemma Fetch_Ok_version opts g tr file g' tr' :
  gitHub.Fetch W opts g tr = (Ok file, g', tr') ->
  File_Version file = github.GetTagName (answer W opts g).1.1.
Proof.
  intros HF.
  destruct (Fetch_Ok_lookup _ _ _ _ _ _ HF) as (r & g1 & tr1 & Hl & _).
  pose proof (lookupRelease_answer opts g tr (Some r) None) as Hans.
  rewrite Hl in Hans. rewrite <- (Hans eq_refl).
  rewrite (Fetch_lookup_ok W _ _ _ _ _ _ Hl) in HF. cbv zeta in HF.
  destruct (FilterAssets W _ _ _) as [gf|e]; [|done].
  destruct (ProcessURL W _ _) as [out|e]; [|done].
  by simplify_eq/=.
Qed.

(** C7. The version of the file a successful [Fetch] returns is the tag
    name of the release the Releases API answered with; the name of the
    file is the one the download step gave, for the asset selected among
    the candidates. *)
Theorem Fetch_version_is_tag opts g tr file g' tr' :
  gitHub.Fetch W opts g tr = (Ok file, g', tr') ->
  exists r gf outFile,
    (answer W opts g).1.1 = Some r /\
    FilterAssets W (filterOf opts) (gitHub.repo g) (candidatesOf g r) = inl gf /\
    ProcessURL W (filterOf opts) (withHeaders g gf) = inl outFile /\
    File_Version file = default "" (github.TagName r) /\
    File_Name file = assets.OutFile_Name outFile.
Proof.
  intros HF.
  destruct (Fetch_Ok_lookup _ _ _ _ _ _ HF) as (r & g1 & tr1 & Hl & Hg1).
  pose proof (lookupRelease_answer opts g tr (Some r) None) as Hans.
  rewrite Hl in Hans. specialize (Hans eq_refl).
  rewrite (Fetch_lookup_ok W _ _ _ _ _ _ Hl) in HF. cbv zeta in HF.
  assert (Hsame : candidatesOf g1 r = candidatesOf g r
                  /\ gitHub.repo g1 = gitHub.repo g
                  /\ withHeaders g1 = withHeaders g).
  { by destruct Hg1 as [-> | ->]. }
  destruct Hsame as (Hc & Hr & Hh). rewrite Hc, Hr, Hh in HF.
  destruct (FilterAssets W _ _ _) as [gf|e] eqn:Hfa; [|done].
  destruct (ProcessURL W _ _) as [out|e] eqn:Hpu; [|done].
  exists r, gf, out. by simplify_eq/=.
Qed.

End choice.

(** ** Construction of the GitHub provider *)

Section construction.
Context (W : World).
Implicit Types (env : gmap string string) (u : url.URL) (g : gitHub.t).

Lemma ghes_flag env :
  (0 <? len (Getenv env "GHES_BASE_URL"))%nat
  && (0 <? len (Getenv env "GHES_UPLOAD_URL"))%nat
  && (0 <? len (Getenv env "GHES_AUTH_TOKEN"))%nat
  = bool_decide (enterprise env).
Proof.
  rewrite !len_pos. unfold enterprise.
  repeat (case_bool_decide; simpl); try done; tauto.
Qed.

Lemma token_choice env :
  (let token := Getenv env "GITHUB_AUTH_TOKEN" in
   if (len token =? 0)%nat then Getenv env "GITHUB_TOKEN" else token)
  = personalToken env.
Proof.
  unfold personalToken. cbv zeta.
  destruct (Getenv env "GITHUB_AUTH_TOKEN") as [|c s] eqn:E; by simpl.
Qed.

(** The provider [newGitHub] builds, field by field. *)
Lemma newGitHub_inl env u g :
  gitHub.newGitHub W env u = inl g ->
  let segs := segments u in
  (3 <= length segs)%nat /\
  gitHub.url g = u /\
  gitHub.owner g = segs !!! 1%nat /\
  gitHub.repo g = segs !!! 2%nat /\
  gitHub.tag g =
    (if (5 <? length segs)%nat && bool_decide (segs !!! 3%nat = "releases")
     then segs !!! 5%nat else "") /\
  gitHub.asset g =
    (if (5 <? length segs)%nat && bool_decide (segs !!! 3%nat = "releases")
     then if (6 <? length segs)%nat && bool_decide (segs !!! 4%nat = "download")
          then segs !!! 6%nat else ""
     else "") /\
  gitHub.token g = personalToken env /\
  gitHub.client g =
    (if bool_decide (enterprise env)
     then github.EnterpriseClient (Getenv env "GHES_BASE_URL")
            (Getenv env "GHES_UPLOAD_URL")
            (Some (http.oauth2_NewClient (Getenv env "GHES_AUTH_TOKEN")))
     else github.NewClient
            (if bool_decide (personalToken env ≠ "")
             then Some (http.oauth2_NewClient (personalToken env)) else None)).
Proof.
  intros H segs. unfold gitHub.newGitHub in H.
  fold (segments u) in H. fold segs in H.
  destruct (length segs <? 3)%nat eqn:Hlen; [done|].
  apply Nat.ltb_ge in Hlen.
  rewrite ghes_flag in H. cbv zeta in H. rewrite token_choice in H.
  unfold NewEnterpriseClient in H.
  destruct ((5 <? length segs)%nat && bool_decide (segs !!! 3%nat = "releases"));
    destruct (bool_decide (enterprise env));
    try destruct (NewEnterpriseClient_err W _ _); simplify_eq/=; done.
Qed.

(** When and how [newGitHub] fails. *)
Lemma newGitHub_inr env u e :
  gitHub.newGitHub W env u = inr e ->
  ((length (segments u) < 3)%nat /\
   e = "error parsing Github URL " +:+ URL_String W u
       +:+ ", can't find owner and repo") \/
  ((3 <= length (segments u))%nat /\ enterprise env /\
   exists e', NewEnterpriseClient_err W (Getenv env "GHES_BASE_URL")
                (Getenv env "GHES_UPLOAD_URL") = Some e' /\
              e = "error initializing GHES client " +:+ e').
Proof.
  intros H. unfold gitHub.newGitHub in H. fold (segments u) in H.
  destruct (length (segments u) <? 3)%nat eqn:Hlen.
  - apply Nat.ltb_lt in Hlen. left. by simplify_eq.
  - apply Nat.ltb_ge in Hlen. right.
    rewrite ghes_flag in H. cbv zeta in H. unfold NewEnterpriseClient in H.
    destruct ((5 <? length (segments u))%nat && _);
      case_bool_decide; try done;
      destruct (NewEnterpriseClient_err W _ _) eqn:He; simplify_eq/=; eauto.
Qed.

End construction.

Section download.
Context (W : World).
Implicit Types (g : gitHub.t) (opts : FetchOpts) (tr : list event).

Lemma downloadHeaders_set_tag v g :
  downloadHeaders (gitHub.set_tag v g) = downloadHeaders g.
Proof. done. Qed.

Lemma lookupRelease_shape opts g tr :
  exists evs,
    trace_of (gitHub.lookupRelease W opts g tr) = tr ++ evs /\
    (forall f gf, CallProcessURL f gf ∉ evs) /\
    (receiver_of (gitHub.lookupRelease W opts g tr) = g \/
     receiver_of (gitHub.lookupRelease W opts g tr) = gitHub.set_tag (Version opts) g).
Proof.
  destruct (decide (Version opts = "")) as [Hv|Hv];
    [destruct (decide (gitHub.tag g = "")) as [Ht|Ht]|].
  - rewrite (lookupRelease_latest W _ _ _ Hv Ht). exists (latestLog g).
    destruct (GetLatestRelease W _ _ _) as [[? [?|]] ?]; simpl;
      (split_and!; [done| |by left]); intros f gf Hin;
      apply elem_of_cons in Hin as [?|Hin]; [done| |done|];
      by apply list_elem_of_singleton in Hin.
  - rewrite (lookupRelease_tag W _ _ _ Hv Ht). exists (byTagLog g (gitHub.tag g)).
    simpl. split_and!; [done| |by left]. intros f gf Hin.
    apply elem_of_cons in Hin as [?|Hin]; [done|].
    by apply list_elem_of_singleton in Hin.
  - rewrite (lookupRelease_version W _ _ _ Hv). exists (byTagLog g (Version opts)).
    simpl. split_and!; [done| |by right]. intros f gf Hin.
    apply elem_of_cons in Hin as [?|Hin]; [done|].
    by apply list_elem_of_singleton in Hin.
Qed.

(** Every download [Fetch] asks for carries the headers made from the
    token of the provider. *)
Lemma Fetch_download_headers opts g tr :
  exists evs,
    trace_of (gitHub.Fetch W opts g tr) = tr ++ evs /\
    forall f gf, CallProcessURL f gf ∈ evs ->
                 assets.ExtraHeaders gf = downloadHeaders g.
Proof.
  destruct (lookupRelease_shape opts g tr) as (evs0 & Htr0 & Hno & Hrecv).
  assert (Hh : downloadHeaders (receiver_of (gitHub.lookupRelease W opts g tr))
               = downloadHeaders g).
  { by destruct Hrecv as [-> | ->]. }
  clear Hrecv.
  destruct (gitHub.lookupRelease W opts g tr) as [[[[[r|] [e|]]|e|msg] g'] tr'] eqn:Hl;
    simpl in Htr0, Hh; subst tr'.
  - rewrite (Fetch_lookup_err W _ _ _ _ _ _ _ Hl). exists evs0. split; [done|].
    intros f gf Hin. by destruct (Hno f gf).
  - rewrite (Fetch_lookup_ok W _ _ _ _ _ _ Hl). cbv zeta.
    assert (Hc : forall f gf, CallProcessURL f gf ∉ candidatesLog g' r).
    { intros f gf. unfold candidatesLog. destruct (requested _ _).
      - apply not_elem_of_nil.
      - case_bool_decide; [|apply not_elem_of_nil].
        intros Hin. by apply list_elem_of_singleton in Hin. }
    destruct (FilterAssets W _ _ _) as [gf0|e];
      [destruct (ProcessURL W _ _) as [out|e]|]; simpl;
      rewrite <- ?app_assoc; (eexists; split; [done|]); intros f gf Hin;
      repeat (apply elem_of_app in Hin as [Hin|Hin]);
      try (by destruct (Hno f gf)); try (by destruct (Hc f gf));
      apply list_elem_of_singleton in Hin; simplify_eq; done.
  - rewrite (Fetch_lookup_err W _ _ _ _ _ _ _ Hl). exists evs0. split; [done|].
    intros f gf Hin. by destruct (Hno f gf).
  - rewrite (Fetch_lookup_nil W _ _ _ _ _ Hl). exists evs0. split; [done|].
    intros f gf Hin. by destruct (Hno f gf).
  - exists evs0. unfold gitHub.Fetch. run. rewrite Hl. split; [done|].
    intros f gf Hin. by destruct (Hno f gf).
  - rewrite (Fetch_lookup_panic W _ _ _ _ _ _ Hl). exists evs0. split; [done|].
    intros f gf Hin. by destruct (Hno f gf).
Qed.

End download.

Section construction_claims.
Context (W : World).
Implicit Types (env : gmap string string) (u : url.URL) (g : gitHub.t).

Lemma newGitHub_succeeds env u :
  (3 <= length (segments u))%nat ->
  (enterprise env ->
   NewEnterpriseClient_err W (Getenv env "GHES_BASE_URL")
     (Getenv env "GHES_UPLOAD_URL") = None) ->
  exists g, gitHub.newGitHub W env u = inl g.
Proof.
  intros Hlen Hghes. destruct (gitHub.newGitHub W env u) as [g|e] eqn:H; [eauto|].
  apply newGitHub_inr in H as [[Hlt _]|(_ & Hent & e' & He' & _)]; [lia|].
  rewrite (Hghes Hent) in He'. done.
Qed.

Lemma newGitHub_rejected env u e :
  enterprise env -> (3 <= length (segments u))%nat ->
  NewEnterpriseClient_err W (Getenv env "GHES_BASE_URL")
    (Getenv env "GHES_UPLOAD_URL") = Some e ->
  gitHub.newGitHub W env u = inr ("error initializing GHES client " +:+ e).
Proof.
  intros Hent Hlen He. unfold gitHub.newGitHub. fold (segments u).
  apply Nat.ltb_ge in Hlen. rewrite Hlen, ghes_flag. cbv zeta.
  unfold NewEnterpriseClient. rewrite (bool_decide_true _ Hent), He.
  by destruct ((5 <? length (segments u))%nat && _).
Qed.

(** C1. The path grammar of [newGitHub].  With [segs] the segments of the
    path of the URL split at "/": fewer than three segments make the
    construction fail with the parse error; otherwise the owner and the
    repository are the 2nd and 3rd segment; with "releases" as 4th segment
    and a 6th segment present, the tag is the 6th segment; if moreover the
    5th segment is "download" and a 7th segment is present, the asset is the
    7th segment; in the other cases tag, respectively asset, are empty.  With
    three segments or more the construction succeeds unless an enterprise
    client is asked for and rejected. *)
Theorem newGitHub_path_grammar env u :
  let segs := segments u in
  ((length segs < 3)%nat ->
   gitHub.newGitHub W env u
     = inr ("error parsing Github URL " +:+ URL_String W u
            +:+ ", can't find owner and repo")) /\
  ((3 <= length segs)%nat -> ~ enterprise env ->
   exists g, gitHub.newGitHub W env u = inl g) /\
  (forall g, gitHub.newGitHub W env u = inl g ->
     segs !! 1%nat = Some (gitHub.owner g) /\
     segs !! 2%nat = Some (gitHub.repo g) /\
     (forall t, segs !! 3%nat = Some "releases" -> segs !! 5%nat = Some t ->
                gitHub.tag g = t) /\
     (forall a, segs !! 3%nat = Some "releases" ->
                segs !! 4%nat = Some "download" -> segs !! 6%nat = Some a ->
                gitHub.asset g = a) /\
     (segs !! 3%nat <> Some "releases" \/ segs !! 5%nat = None ->
      gitHub.tag g = "" /\ gitHub.asset g = "") /\
     (segs !! 4%nat <> Some "download" \/ segs !! 6%nat = None ->
      gitHub.asset g = "")).
Proof.
  intros segs. split_and!.
  - intros Hlt. unfold gitHub.newGitHub. fold (segments u). fold segs.
    apply Nat.ltb_lt in Hlt. by rewrite Hlt.
  - intros Hlen Hent. apply newGitHub_succeeds; [done|]. by intros ?.
  - intros g Hg. apply newGitHub_inl in Hg. cbv zeta in Hg. fold segs in Hg.
    destruct Hg as (Hlen & _ & Ho & Hr & Ht & Ha & _).
    assert (Hlk : forall i, (i < length segs)%nat -> segs !! i = Some (segs !!! i)).
    { intros i Hi. apply list_lookup_lookup_total_lt. exact Hi. }
    split_and!.
    + rewrite Ho. apply Hlk. lia.
    + rewrite Hr. apply Hlk. lia.
    + intros t H3 H5. rewrite Ht.
      pose proof (lookup_lt_Some _ _ _ H5) as Hl5. apply Nat.ltb_lt in Hl5.
      rewrite Hl5, (list_lookup_total_correct _ _ _ H3),
        (list_lookup_total_correct _ _ _ H5). done.
    + intros a H3 H4 H6. rewrite Ha.
      pose proof (lookup_lt_Some _ _ _ H6) as Hl6.
      assert (Hl5 : (5 <? length segs)%nat = true) by (apply Nat.ltb_lt; lia).
      apply Nat.ltb_lt in Hl6.
      rewrite Hl5, Hl6, (list_lookup_total_correct _ _ _ H3),
        (list_lookup_total_correct _ _ _ H4),
        (list_lookup_total_correct _ _ _ H6). done.
    + intros Hor. rewrite Ht, Ha.
      destruct (5 <? length segs)%nat eqn:Hl5; [|done]. apply Nat.ltb_lt in Hl5.
      case_bool_decide as H3; [|done]. exfalso. destruct Hor as [Hn|Hn].
      * apply Hn. rewrite <- H3. apply Hlk. lia.
      * apply lookup_ge_None in Hn. lia.
    + intros Hor. rewrite Ha.
      destruct ((5 <? length segs)%nat && _); [|done].
      destruct (6 <? length segs)%nat eqn:Hl6; [|done]. apply Nat.ltb_lt in Hl6.
      case_bool_decide as H4; [|done]. exfalso. destruct Hor as [Hn|Hn].
      * apply Hn. rewrite <- H4. apply Hlk. lia.
      * apply lookup_ge_None in Hn. lia.
Qed.

(** C6. The token [newGitHub] records is the value of GITHUB_AUTH_TOKEN
    when that is non-empty, the value of GITHUB_TOKEN otherwise, which is
    empty when neither is set; with neither and no enterprise server the
    API client is built without authentication.  In particular, with
    GITHUB_AUTH_TOKEN set to a non-empty A and GITHUB_TOKEN set to B, the
    token is A. *)
Theorem newGitHub_token env u g :
  gitHub.newGitHub W env u = inl g ->
  (Getenv env "GITHUB_AUTH_TOKEN" <> "" ->
   gitHub.token g = Getenv env "GITHUB_AUTH_TOKEN") /\
  (Getenv env "GITHUB_AUTH_TOKEN" = "" ->
   gitHub.token g = Getenv env "GITHUB_TOKEN") /\
  (env !! "GITHUB_AUTH_TOKEN" = None -> env !! "GITHUB_TOKEN" = None ->
   gitHub.token g = "" /\
   (~ enterprise env -> gitHub.client g = github.NewClient None)) /\
  (forall A B, env !! "GITHUB_AUTH_TOKEN" = Some A -> env !! "GITHUB_TOKEN" = Some B ->
               A <> "" -> gitHub.token g = A).
Proof.
  intros Hg. apply newGitHub_inl in Hg. cbv zeta in Hg.
  destruct Hg as (_ & _ & _ & _ & _ & _ & Htok & Hcl).
  unfold personalToken in *. split_and!.
  - intros Hne. by rewrite Htok, (bool_decide_true _ Hne).
  - intros He. rewrite Htok, He. done.
  - intros HA HB. unfold Getenv in *. rewrite HA, HB in *. simpl in *.
    split; [done|]. intros Hent. by rewrite (bool_decide_false _ Hent) in Hcl.
  - intros A B HA HB Hne. unfold Getenv in *. rewrite HA in *. simpl in *.
    by rewrite Htok, (bool_decide_true _ Hne).
Qed.

(** C8. With GHES_BASE_URL, GHES_UPLOAD_URL and GHES_AUTH_TOKEN all set
    (and a path of three segments or more), the API client is the
    enterprise client for the two URLs, built around an OAuth2 client for
    GHES_AUTH_TOKEN, whatever the personal tokens; the token recorded on the
    provider is still the personal one, and it is the one every download of
    [Fetch] sends in its Authorization header; if the enterprise client is
    rejected, so is the construction. *)
Theorem newGitHub_enterprise env u :
  enterprise env -> (3 <= length (segments u))%nat ->
  let gbu := Getenv env "GHES_BASE_URL" in
  let guu := Getenv env "GHES_UPLOAD_URL" in
  let tc := Some (http.oauth2_NewClient (Getenv env "GHES_AUTH_TOKEN")) in
  (forall e, NewEnterpriseClient W gbu guu tc = inr e ->
     gitHub.newGitHub W env u = inr ("error initializing GHES client " +:+ e)) /\
  (forall c, NewEnterpriseClient W gbu guu tc = inl c ->
     exists g,
       gitHub.newGitHub W env u = inl g /\
       gitHub.client g = c /\
       c = github.EnterpriseClient gbu guu tc /\
       gitHub.token g = personalToken env /\
       forall opts tr, exists evs,
         trace_of (gitHub.Fetch W opts g tr) = tr ++ evs /\
         forall f gf, CallProcessURL f gf ∈ evs ->
           assets.ExtraHeaders gf !! "Authorization"
           = (if bool_decide (personalToken env ≠ "")
              then Some ("token " +:+ personalToken env) else None)).
Proof.
  intros Hent Hlen gbu guu tc. unfold NewEnterpriseClient. split.
  - intros e He. destruct (NewEnterpriseClient_err W gbu guu) as [e'|] eqn:Herr;
      [|done]. injection He as <-.
    by apply newGitHub_rejected.
  - intros c Hc. destruct (NewEnterpriseClient_err W gbu guu) eqn:Herr; [done|].
    injection Hc as <-.
    destruct (newGitHub_succeeds env u Hlen) as [g Hg]; [done|].
    exists g. pose proof (newGitHub_inl W env u g Hg) as Hf. cbv zeta in Hf.
    destruct Hf as (_ & _ & _ & _ & _ & _ & Htok & Hcl).
    rewrite (bool_decide_true _ Hent) in Hcl. split_and!; try done.
    intros opts tr. destruct (Fetch_download_headers W opts g tr) as (evs & Htr & Hh).
    exists evs. split; [done|]. intros f gf Hin. rewrite (Hh f gf Hin).
    unfold downloadHeaders. rewrite Htok. case_bool_decide; by simplify_map_eq.
Qed.

End construction_claims.

(** ** The generic provider *)

Section generic_provider.
Context (W : World).
Implicit Types (g : generic.t) (opts : FetchOpts) (tr : list event).

Lemma GetLatestVersion_eq g tr :
  generic.GetLatestVersion W g tr =
    match http_Get W (generic.client g) (endpoint W g) with
    | inr e => (Err e, g, tr ++ askLog W g)
    | inl resp =>
        match http.Body resp with
        | inr e => (Err e, g, tr ++ askLog W g)
        | inl content =>
            let version := strings.TrimSpace content in
            match url_Parse W (substituted g version) with
            | inr e => (Err e, g, tr ++ askLog W g)
            | inl u => (Ok (version, URL_String W u), g, tr ++ askLog W g)
            end
        end
    end.
Proof.
  unfold generic.GetLatestVersion, endpoint, substituted, askLog. run.
  rewrite <- !app_assoc. simpl.
  destruct (http_Get W _ _) as [resp|e]; simpl; [|done].
  destruct (http.Body resp) as [content|e]; simpl; [|done].
  by destruct (url_Parse W _) as [u|e].
Qed.

(** A trimmed body that keeps a control byte, such as the line break
    between two lines, makes the substituted template unparsable, in every
    world. *)
Lemma GetLatestVersion_ctl g tr resp body :
  http_Get W (generic.client g) (endpoint W g) = inl resp ->
  http.Body resp = inl body ->
  url.stringContainsCTLByte
    (url.beforeFragment (substituted g (strings.TrimSpace body))) = true ->
  exists e, outcome_of (generic.GetLatestVersion W g tr) = Err e.
Proof.
  intros Hget Hbody Hctl. rewrite GetLatestVersion_eq, Hget, Hbody. cbv zeta.
  destruct (url_Parse_ctl W _ Hctl) as [e He]. rewrite He. by exists e.
Qed.

Lemma generic_Fetch_version opts g tr file :
  outcome_of (generic.Fetch W opts g tr) = Ok file ->
  exists u, outcome_of (generic.GetLatestVersion W g tr) = Ok (File_Version file, u).
Proof.
  unfold generic.Fetch. run.
  destruct (generic.GetLatestVersion W g tr) as [[[[v u]|e|msg] g'] tr']; simpl;
    [|done..].
  destruct (ProcessURL W _ _) as [out|e]; simpl; [|done].
  intros [= <-]. by exists u.
Qed.

Lemma gitHub_GetLatestVersion_eq (p : gitHub.t) tr v u :
  outcome_of (gitHub.GetLatestVersion W p tr) = Ok (v, u) ->
  let ans := GetLatestRelease W (gitHub.client p) (gitHub.owner p) (gitHub.repo p) in
  ans.2 = None /\ v = github.GetTagName ans.1.1 /\ u = github.GetHTMLURL ans.1.1.
Proof.
  unfold gitHub.GetLatestVersion. run.
  destruct (GetLatestRelease W _ _ _) as [[rel resp] [e|]]; simpl; [done|].
  by intros [= <- <-].
Qed.

(** C2, as the code has it.  For a body [body] the version endpoint
    answers with: the version is [body] without the white space at its two
    ends, and only that; the template is cut at the occurrences of
    "{version}" into pieces free of it, which joined by the version give
    the substituted template, a template without "{version}" being left as
    it is; if the substituted template parses as a URL, GetLatestVersion
    returns the version and that URL printed back; if it does not parse,
    GetLatestVersion returns the parse error. *)
Theorem GetLatestVersion_spec g tr resp body :
  http_Get W (generic.client g) (endpoint W g) = inl resp ->
  http.Body resp = inl body ->
  let version := strings.TrimSpace body in
  let target := strings.ReplaceAll (generic.url g) "{version}" version in
  (exists l r, body = l +:+ version +:+ r /\ WhiteSpace l /\ WhiteSpace r /\
               ~ StartsWithSpace version /\ ~ EndsWithSpace version) /\
  (let pieces := strings.Split (generic.url g) "{version}" in
   generic.url g = strings.Join pieces "{version}" /\
   Forall (fun p => ~ Occurs "{version}" p) pieces /\
   target = strings.Join pieces version) /\
  (~ Occurs "{version}" (generic.url g) -> target = generic.url g) /\
  (forall u, url_Parse W target = inl u ->
     outcome_of (generic.GetLatestVersion W g tr) = Ok (version, URL_String W u)) /\
  (forall e, url_Parse W target = inr e ->
     outcome_of (generic.GetLatestVersion W g tr) = Err e).
Proof.
  intros Hget Hbody version target. split_and!.
  - apply TrimSpace_spec.
  - by apply ReplaceAll_spec.
  - apply ReplaceAll_absent.
  - intros u Hu. rewrite GetLatestVersion_eq, Hget, Hbody. cbv zeta.
    fold version. unfold substituted. fold target. by rewrite Hu.
  - intros e He. rewrite GetLatestVersion_eq, Hget, Hbody. cbv zeta.
    fold version. unfold substituted. fold target. by rewrite He.
Qed.

(** C9, as the code has it.  The version a provider resolves on success
    is the trimmed body of the version endpoint (generic) or the tag name
    of the release (GitHub), whatever it is: it is non-empty when the body
    is not white space only, respectively when the release has a non-empty
    tag name. *)
Theorem resolved_version_nonempty :
  (forall g tr v u resp body,
     outcome_of (generic.GetLatestVersion W g tr) = Ok (v, u) ->
     http_Get W (generic.client g) (endpoint W g) = inl resp ->
     http.Body resp = inl body ->
     v = strings.TrimSpace body /\ (~ WhiteSpace body -> v <> "")) /\
  (forall g opts tr file resp body,
     outcome_of (generic.Fetch W opts g tr) = Ok file ->
     http_Get W (generic.client g) (endpoint W g) = inl resp ->
     http.Body resp = inl body ->
     File_Version file = strings.TrimSpace body /\
     (~ WhiteSpace body -> File_Version file <> "")) /\
  (forall (p : gitHub.t) tr v u,
     outcome_of (gitHub.GetLatestVersion W p tr) = Ok (v, u) ->
     v = github.GetTagName
           (GetLatestRelease W (gitHub.client p) (gitHub.owner p) (gitHub.repo p)).1.1 /\
     (forall r t,
        (GetLatestRelease W (gitHub.client p) (gitHub.owner p) (gitHub.repo p)).1.1
          = Some r ->
        github.TagName r = Some t -> t <> "" -> v <> "")) /\
  (forall (p : gitHub.t) opts tr file,
     outcome_of (gitHub.Fetch W opts p tr) = Ok file ->
     File_Version file = github.GetTagName (answer W opts p).1.1 /\
     (forall r t, (answer W opts p).1.1 = Some r ->
                  github.TagName r = Some t -> t <> "" ->
                  File_Version file <> "")).
Proof.
  assert (Hgen : forall g tr v u resp body,
     outcome_of (generic.GetLatestVersion W g tr) = Ok (v, u) ->
     http_Get W (generic.client g) (endpoint W g) = inl resp ->
     http.Body resp = inl body ->
     v = strings.TrimSpace body /\ (~ WhiteSpace body -> v <> "")).
  { intros g tr v u resp body Hok Hget Hbody.
    rewrite GetLatestVersion_eq, Hget, Hbody in Hok. cbv zeta in Hok.
    destruct (url_Parse W _) as [u'|e]; [|done]. injection Hok as <- <-.
    split; [done|]. intros Hws Hv. by apply Hws, TrimSpace_empty_WhiteSpace. }
  split_and!.
  - exact Hgen.
  - intros g opts tr file resp body Hok Hget Hbody.
    apply generic_Fetch_version in Hok as [u Hu]. by eapply Hgen.
  - intros p tr v u Hok. apply gitHub_GetLatestVersion_eq in Hok as (_ & -> & _).
    split; [done|]. intros r t -> Ht Hne. unfold github.GetTagName. simpl.
    by rewrite Ht.
  - intros p opts tr file Hok.
    destruct (gitHub.Fetch W opts p tr) as [[o p'] tr'] eqn:HF.
    unfold outcome_of in Hok. simpl in Hok. subst o.
    rewrite (Fetch_Ok_version W _ _ _ _ _ _ HF). split; [done|].
    intros r t -> Ht Hne. unfold github.GetTagName. simpl. by rewrite Ht.
Qed.

End generic_provider.

(** ** The scenarios, run *)

Section runs.
Import scenario.

(** The four URLs of the specification. *)
Example newGitHub_repoURL :
  gitHub.newGitHub fake.offline ∅ repoURL
  = inl (gitHub.mk repoURL (github.NewClient None) "owner" "repo" "" "" "").
Proof. vm_compute. reflexivity. Qed.

Example newGitHub_tagURL :
  gitHub.newGitHub fake.offline ∅ tagURL
  = inl (gitHub.mk tagURL (github.NewClient None) "owner" "repo" "v1.2.3" "" "").
Proof. vm_compute. reflexivity. Qed.

Example newGitHub_downloadURL :
  gitHub.newGitHub fake.offline ∅ downloadURL
  = inl (gitHub.mk downloadURL (github.NewClient None) "owner" "repo" "v1.2.3"
                   "tool-linux-amd64" "").
Proof. vm_compute. reflexivity. Qed.

Example newGitHub_ownerURL :
  gitHub.newGitHub fake.offline ∅ ownerURL
  = inr "error parsing Github URL https://github.com/owner, can't find owner and repo".
Proof. vm_compute. reflexivity. Qed.

Lemma newGitHub_path_grammar_witness :
  exists g, gitHub.newGitHub fake.offline ∅ downloadURL = inl g /\
            gitHub.owner g = "owner" /\ gitHub.repo g = "repo" /\
            gitHub.tag g = "v1.2.3" /\ gitHub.asset g = "tool-linux-amd64".
Proof.
  pose proof (newGitHub_path_grammar fake.offline ∅ downloadURL) as H.
  cbv zeta in H. destruct H as (_ & Hex & Hf).
  destruct Hex as [g Hg].
  { vm_compute. lia. }
  { intros (H & _). apply H. reflexivity. }
  exists g. destruct (Hf g Hg) as (Ho & Hr & Ht & Ha & _).
  split; [exact Hg|].
  assert (E1 : segments downloadURL !! 1%nat = Some "owner") by reflexivity.
  assert (E2 : segments downloadURL !! 2%nat = Some "repo") by reflexivity.
  split; [congruence|]. split; [congruence|]. split.
  - apply Ht; reflexivity.
  - apply Ha; reflexivity.
Defined.

(** A version endpoint that answers one line. *)
Lemma GetLatestVersion_spec_witness :
  outcome_of (generic.GetLatestVersion (answering oneLine) tool [])
  = Ok ("v1.2.3", "https://example.com/dl/v1.2.3/tool-v1.2.3.tgz").
Proof.
  pose proof (GetLatestVersion_spec (answering oneLine) tool []
                (http.mkResponse 200 (inl oneLine)) oneLine eq_refl eq_refl) as H.
  cbv zeta in H. destruct H as (_ & _ & _ & Hok & _).
  rewrite (Hok (url.mkURL "https" "example.com" "/dl/v1.2.3/tool-v1.2.3.tgz" "" ""));
    vm_compute; reflexivity.
Defined.

(** C2, refuted as stated: a version endpoint that answers two lines.  The
    trimmed body keeps the line break between them, the substituted template
    does not parse, and GetLatestVersion returns an error instead of the
    trimmed body and the substituted template. *)
Lemma GetLatestVersion_two_lines :
  (exists e, outcome_of (generic.GetLatestVersion (answering twoLines) tool []) = Err e) /\
  outcome_of (generic.GetLatestVersion (answering twoLines) tool [])
  <> Ok (strings.TrimSpace twoLines,
         strings.ReplaceAll (generic.url tool) "{version}" (strings.TrimSpace twoLines)).
Proof.
  destruct (GetLatestVersion_ctl (answering twoLines) tool []
              (http.mkResponse 200 (inl twoLines)) twoLines eq_refl eq_refl)
    as [e He].
  { vm_compute. reflexivity. }
  rewrite He. split; [by exists e | discriminate].
Qed.

(** The assets of the specification. *)
Example getCandidates_a_linux :
  gitHub.getCandidates threeAssets "a-linux" tt []
  = (Ok [assets.mkAsset "a-linux" "https://api.github.com/assets/2"], tt, []).
Proof. vm_compute. reflexivity. Qed.

Lemma getCandidates_spec_witness :
  gitHub.getCandidates threeAssets "missing" tt []
  = (Ok (gitHub.toAsset <$> threeAssets), tt,
     [Log Warn "asset missing not found in release"]).
Proof.
  destruct (getCandidates_spec threeAssets "missing" tt []) as (_ & H & _).
  apply H.
  - discriminate.
  - intros a Ha. unfold threeAssets in Ha.
    repeat (apply elem_of_cons in Ha as [->|Ha]; [discriminate|]).
    by apply elem_of_nil in Ha.
Defined.

Lemma Fetch_latest_not_found_witness :
  outcome_of (gitHub.Fetch notFound noOpts latestProvider [])
  = Err "repository owner/repo does not have releases".
Proof.
  pose proof (Fetch_latest_not_found notFound noOpts latestProvider [] None
                (github.mkResponse 404) (Some "GET releases/latest: 404 Not Found")
                eq_refl eq_refl eq_refl eq_refl) as H.
  cbv zeta in H. destruct H as (H & _). exact H.
Defined.

Lemma Fetch_release_choice_witness :
  receiver_of (gitHub.Fetch released ensureOpts taggedProvider [])
  = gitHub.set_tag "v2.0.0" taggedProvider.
Proof.
  destruct (Fetch_release_choice released ensureOpts taggedProvider [])
    as (evs & _ & Hv & _).
  apply Hv. discriminate.
Defined.

Lemma newGitHub_token_witness :
  exists g, gitHub.newGitHub fake.offline bothTokens repoURL = inl g /\
            gitHub.token g = "A".
Proof.
  destruct (gitHub.newGitHub fake.offline bothTokens repoURL) as [g|e] eqn:Hg;
    [|vm_compute in Hg; discriminate].
  exists g. split; [reflexivity|].
  destruct (newGitHub_token fake.offline bothTokens repoURL g Hg) as (_ & _ & _ & H).
  apply (H "A" "B"); [reflexivity | reflexivity | discriminate].
Defined.

Lemma Fetch_version_is_tag_witness :
  exists file,
    outcome_of (gitHub.Fetch released noOpts latestProvider []) = Ok file /\
    exists r, (answer released noOpts latestProvider).1.1 = Some r /\
              File_Version file = default "" (github.TagName r) /\
              File_Version file = "v1.2.3".
Proof.
  destruct (gitHub.Fetch released noOpts latestProvider [])
    as [[[file|e|msg] g'] tr'] eqn:HF;
    [|vm_compute in HF; discriminate..].
  exists file. split; [reflexivity|].
  destruct (Fetch_version_is_tag released noOpts latestProvider [] file g' tr' HF)
    as (r & gf & out & Hr & _ & _ & Hv & _).
  exists r. split; [exact Hr|]. split; [exact Hv|].
  rewrite Hv. vm_compute in Hr. injection Hr as <-. reflexivity.
Defined.

Lemma newGitHub_enterprise_witness :
  exists g, gitHub.newGitHub fake.offline enterpriseEnv downloadURL = inl g /\
            gitHub.client g
            = github.EnterpriseClient "https://ghe.example.com/"
                "https://ghe.example.com/upload/" (Some (http.oauth2_NewClient "E")) /\
            gitHub.token g = "B".
Proof.
  pose proof (newGitHub_enterprise fake.offline enterpriseEnv downloadURL) as H.
  cbv zeta in H. destruct H as (_ & H).
  { repeat split; vm_compute; discriminate. }
  { vm_compute. lia. }
  destruct (H _ eq_refl) as (g & Hg & Hc & _ & Ht & _).
  exists g. split; [exact Hg|]. split; [exact Hc | exact Ht].
Defined.

(** C9, refuted as stated: a version endpoint that answers a blank line.
    GetLatestVersion succeeds with the empty version. *)
Lemma GetLatestVersion_blank :
  outcome_of (generic.GetLatestVersion (answering blank) tool [])
  = Ok ("", "https://example.com/dl//tool-.tgz").
Proof. vm_compute. reflexivity. Qed.

(** The same on GitHub, for a release without tag name. *)
Example GetLatestVersion_untagged :
  outcome_of (gitHub.GetLatestVersion untagged latestProvider [])
  = Ok ("", "https://github.com/owner/repo/releases/x").
Proof. vm_compute. reflexivity. Qed.

Lemma resolved_version_nonempty_witness :
  "v1.2.3" = strings.TrimSpace oneLine /\
  (~ WhiteSpace oneLine -> "v1.2.3" <> "").
Proof.
  destruct (resolved_version_nonempty (answering oneLine)) as (H & _).
  apply (H tool [] "v1.2.3" "https://example.com/dl/v1.2.3/tool-v1.2.3.tgz"
           (http.mkResponse 200 (inl oneLine)) oneLine);
    vm_compute; reflexivity.
Defined.

Lemma Fetch_latest_nil_response_witness :
  outcome_of (gitHub.Fetch unreachable noOpts latestProvider []) = Panic nilDeref.
Proof.
  destruct (Fetch_latest_nil_response unreachable noOpts latestProvider [] None None
              (Some "dial tcp: connection refused") eq_refl eq_refl eq_refl)
    as (H & _).
  apply H. reflexivity.
Defined.

End runs.

(** * Further properties of the providers *)

(** ** Splitting at a single byte *)

Section single_byte.
Import strings.
Implicit Types (c x : ascii) (s p : list ascii).

Lemma index_byte_cons c x s :
  index [c] (x :: s) = if bool_decide (x = c) then Some O else S <$> index [c] s.
Proof.
  simpl. destruct (hasPrefix [c] (x :: s)) eqn:Hp.
  - apply hasPrefix_true in Hp as [k Hk]. injection Hk as -> _.
    by rewrite bool_decide_true.
  - case_bool_decide as Hx; [|done]. subst x.
    assert (hasPrefix [c] (c :: s) = true); [|congruence].
    apply hasPrefix_true. by exists s.
Qed.

Lemma index_byte_nil c : index [c] [] = None.
Proof.
  simpl. destruct (hasPrefix [c] []) eqn:Hp; [|done].
  apply hasPrefix_true in Hp as [k Hk]. done.
Qed.

(** The first instance of a byte is where the bytes before it end. *)
Lemma index_byte_first c p s : c ∉ p -> index [c] (p ++ c :: s) = Some (length p).
Proof.
  induction p as [|x p IH]; intros Hc.
  - simpl app. rewrite index_byte_cons. by rewrite bool_decide_true.
  - apply not_elem_of_cons in Hc as [Hx Hp]. simpl app.
    rewrite index_byte_cons, bool_decide_false by congruence.
    by rewrite (IH Hp).
Qed.

Lemma index_byte_absent c s : c ∉ s -> index [c] s = None.
Proof.
  induction s as [|x s IH]; intros Hc; [apply index_byte_nil|].
  apply not_elem_of_cons in Hc as [Hx Hs].
  rewrite index_byte_cons, bool_decide_false by congruence.
  by rewrite (IH Hs).
Qed.

Lemma not_Contains_byte c s : ~ Contains [c] s <-> c ∉ s.
Proof.
  split.
  - intros H Hin. apply list_elem_of_split in Hin as (l1 & l2 & ->).
    apply H. by exists l1, l2.
  - intros H (l1 & l2 & ->). apply H. set_solver.
Qed.

(** Splitting undoes joining, for pieces free of the separating byte. *)
Lemma split_join_byte c pieces n :
  pieces <> [] -> Forall (fun p => c ∉ p) pieces ->
  (length (join [c] pieces) <= n)%nat ->
  split n [c] (join [c] pieces) = pieces.
Proof.
  revert n. induction pieces as [|p rest IH]; intros n Hne Hf Hn; [done|].
  apply Forall_cons in Hf as [Hp Hrest].
  destruct rest as [|q rest].
  - simpl. destruct n; [done|]. simpl. by rewrite index_byte_absent.
  - rewrite join_cons in * by done.
    rewrite !length_app in Hn. change (length [c]) with 1%nat in Hn.
    destruct n as [|n]; [lia|].
    simpl split. change ([c] ++ join [c] (q :: rest)) with (c :: join [c] (q :: rest)).
    rewrite index_byte_first by done.
    rewrite take_app_length, drop_app_add. change (length [c]) with 1%nat.
    change (drop 1 (c :: join [c] (q :: rest))) with (join [c] (q :: rest)).
    f_equal. apply IH; [done|done|lia].
Qed.

(** Splitting at a byte gives one piece more than the byte occurs. *)
Lemma split_byte_length c n s :
  (length s <= n)%nat ->
  length (split n [c] s) = S (count_occ ascii_dec s c).
Proof.
  revert s. induction n as [|n IH]; intros s Hn.
  - destruct s; [done | simpl in Hn; lia].
  - simpl. destruct (index [c] s) as [m|] eqn:Hi.
    + destruct (index_Some _ _ _ Hi) as (Hs & Hle & _).
      assert (Hfree : c ∉ take m s).
      { apply not_Contains_byte. by eapply index_take_free. }
      simpl. rewrite IH by (rewrite length_drop; simpl; lia).
      rewrite Hs at 2. rewrite count_occ_app. simpl.
      destruct (ascii_dec c c) as [_|]; [|done].
      assert (count_occ ascii_dec (take m s) c = O) as ->; [|done].
      apply count_occ_not_In. by rewrite <- list_elem_of_In.
    + simpl. f_equal. symmetry. apply count_occ_not_In.
      rewrite <- list_elem_of_In. apply not_Contains_byte. by apply index_None.
Qed.

End single_byte.

Lemma Occurs_byte c s : ~ Occurs (byteString c) s <-> c ∉ to_bytes s.
Proof. unfold Occurs, byteString. simpl. apply not_Contains_byte. Qed.

Lemma Split_byte c s :
  strings.Split s (byteString c) = of_bytes <$> strings.split (len s) [c] (to_bytes s).
Proof. done. Qed.

(** [strings.Split] undoes [strings.Join], for strings free of the
    separating byte. *)
Lemma Split_Join_byte c (a : list string) :
  a <> [] -> Forall (fun p => ~ Occurs (byteString c) p) a ->
  strings.Split (strings.Join a (byteString c)) (byteString c) = a.
Proof.
  intros Hne Hf. rewrite Split_byte. unfold strings.Join. simpl to_bytes.
  rewrite to_of_bytes, split_join_byte.
  - rewrite <- list_fmap_compose. rewrite <- (list_fmap_id a) at 2.
    apply list_fmap_ext. intros ? x _. simpl. apply of_to_bytes.
  - by destruct a.
  - apply Forall_fmap. eapply Forall_impl; [exact Hf|].
    intros p Hp. simpl. by apply Occurs_byte.
  - rewrite <- len_to_bytes. by rewrite to_of_bytes.
Qed.

Lemma Split_byte_length c s :
  length (strings.Split s (byteString c)) = S (countByte c s).
Proof.
  rewrite Split_byte, length_fmap. apply split_byte_length.
  by rewrite len_to_bytes.
Qed.

Lemma Split_byte_free c s :
  Forall (fun p => ~ Occurs (byteString c) p) (strings.Split s (byteString c)).
Proof.
  destruct (ReplaceAll_spec s (byteString c) "") as (_ & H & _); [done|].
  exact H.
Qed.

(** ** More on the construction of the GitHub provider *)

Section more_construction.
Context (W : World).
Implicit Types (env : gmap string string) (u : url.URL) (g : gitHub.t).

Lemma segments_Join u (a : list string) :
  a <> [] -> Forall (fun p => ~ Occurs "/" p) a ->
  url.Path u = strings.Join a "/" -> segments u = a.
Proof.
  intros Hne Hf Hp. unfold segments. rewrite Hp.
  by apply (Split_Join_byte "/"%char).
Qed.

Lemma segments_length u : length (segments u) = S (countByte "/" (url.Path u)).
Proof. apply (Split_byte_length "/"%char). Qed.

Lemma segments_free u : Forall (fun p => ~ Occurs "/" p) (segments u).
Proof. apply (Split_byte_free "/"%char). Qed.

Lemma not_Occurs_empty c : ~ Occurs (byteString c) "".
Proof. apply Occurs_byte. simpl. apply not_elem_of_nil. Qed.

(** X1. No field read off the path contains a slash. *)
Theorem newGitHub_fields_slash_free env u g :
  gitHub.newGitHub W env u = inl g ->
  ~ Occurs "/" (gitHub.owner g) /\ ~ Occurs "/" (gitHub.repo g) /\
  ~ Occurs "/" (gitHub.tag g) /\ ~ Occurs "/" (gitHub.asset g).
Proof.
  intros Hg. apply newGitHub_inl in Hg. cbv zeta in Hg.
  destruct Hg as (Hlen & _ & -> & -> & -> & -> & _).
  pose proof (segments_free u) as Hf. rewrite Forall_forall in Hf.
  assert (Hi : forall i, (i < length (segments u))%nat ->
                         ~ Occurs "/" (segments u !!! i)).
  { intros i Hi. apply Hf. by apply list_elem_of_lookup_total_2. }
  split_and!.
  - apply Hi. lia.
  - apply Hi. lia.
  - destruct (5 <? length (segments u))%nat eqn:H5; simpl;
      [|apply (not_Occurs_empty "/"%char)].
    apply Nat.ltb_lt in H5. case_bool_decide; [|apply (not_Occurs_empty "/"%char)].
    apply Hi. lia.
  - destruct (5 <? length (segments u))%nat eqn:H5; simpl;
      [|apply (not_Occurs_empty "/"%char)].
    case_bool_decide; [|apply (not_Occurs_empty "/"%char)].
    destruct (6 <? length (segments u))%nat eqn:H6; simpl;
      [|apply (not_Occurs_empty "/"%char)].
    apply Nat.ltb_lt in H6. case_bool_decide; [|apply (not_Occurs_empty "/"%char)].
    apply Hi. lia.
Qed.

(** X2. A tag or an asset on the provider comes from a release URL: a
    non-empty tag is the 6th segment after "releases" as 4th, and a
    non-empty asset is the 7th segment after "releases" and "download" as
    4th and 5th (with the 6th segment, possibly empty, as tag). *)
Theorem newGitHub_tag_asset_origin env u g :
  gitHub.newGitHub W env u = inl g ->
  let segs := segments u in
  (gitHub.tag g <> "" ->
   segs !! 3%nat = Some "releases" /\ segs !! 5%nat = Some (gitHub.tag g)) /\
  (gitHub.asset g <> "" ->
   segs !! 3%nat = Some "releases" /\ segs !! 4%nat = Some "download" /\
   segs !! 5%nat = Some (gitHub.tag g) /\ segs !! 6%nat = Some (gitHub.asset g)).
Proof.
  intros Hg segs. apply newGitHub_inl in Hg. cbv zeta in Hg. fold segs in Hg.
  destruct Hg as (Hlen & _ & _ & _ & Ht & Ha & _).
  assert (Hlk : forall i, (i < length segs)%nat -> segs !! i = Some (segs !!! i)).
  { intros i Hi. by apply list_lookup_lookup_total_lt. }
  destruct (5 <? length segs)%nat eqn:H5; simpl in Ht, Ha;
    [|split; intros; congruence].
  apply Nat.ltb_lt in H5.
  case_bool_decide as H3; [|split; intros; congruence].
  split.
  - intros _. rewrite Ht, <- H3. split; apply Hlk; lia.
  - intros Hne.
    destruct (6 <? length segs)%nat eqn:H6; simpl in Ha; [|congruence].
    apply Nat.ltb_lt in H6.
    case_bool_decide as H4; [|congruence].
    rewrite Ht, Ha, <- H3, <- H4. split_and!; apply Hlk; lia.
Qed.

(** X3. Construction looks at the number of slashes only: with fewer than two
    in the path it fails with the parse error; with two or more it
    succeeds, empty owner or repository included, unless an enterprise
    client is asked for and rejected. *)
Theorem newGitHub_two_slashes env u :
  ((countByte "/" (url.Path u) < 2)%nat ->
   gitHub.newGitHub W env u
     = inr ("error parsing Github URL " +:+ URL_String W u
            +:+ ", can't find owner and repo")) /\
  ((2 <= countByte "/" (url.Path u))%nat ->
   (enterprise env ->
    NewEnterpriseClient_err W (Getenv env "GHES_BASE_URL")
      (Getenv env "GHES_UPLOAD_URL") = None) ->
   exists g, gitHub.newGitHub W env u = inl g).
Proof.
  pose proof (segments_length u) as Hl. split.
  - intros Hc. unfold gitHub.newGitHub. fold (segments u).
    assert ((length (segments u) <? 3)%nat = true) as -> by (apply Nat.ltb_lt; lia).
    done.
  - intros Hc Hghes. apply newGitHub_succeeds; [lia | done].
Qed.

(** X4. A path put together from an owner, a repository, a tag and an asset
    that are free of slashes is taken apart into the same: for the
    repository URL, the release URL (whatever its 5th segment) and the
    download URL. *)
Theorem newGitHub_round_trip env u o r t a x :
  ~ Occurs "/" o -> ~ Occurs "/" r -> ~ Occurs "/" t -> ~ Occurs "/" a ->
  ~ Occurs "/" x ->
  (enterprise env ->
   NewEnterpriseClient_err W (Getenv env "GHES_BASE_URL")
     (Getenv env "GHES_UPLOAD_URL") = None) ->
  (url.Path u = "/" +:+ o +:+ "/" +:+ r ->
   exists g, gitHub.newGitHub W env u = inl g /\
             gitHub.owner g = o /\ gitHub.repo g = r /\
             gitHub.tag g = "" /\ gitHub.asset g = "") /\
  (url.Path u = "/" +:+ o +:+ "/" +:+ r +:+ "/releases/" +:+ x +:+ "/" +:+ t ->
   exists g, gitHub.newGitHub W env u = inl g /\
             gitHub.owner g = o /\ gitHub.repo g = r /\
             gitHub.tag g = t /\ gitHub.asset g = "") /\
  (url.Path u = "/" +:+ o +:+ "/" +:+ r +:+ "/releases/download/" +:+ t
                +:+ "/" +:+ a ->
   exists g, gitHub.newGitHub W env u = inl g /\
             gitHub.owner g = o /\ gitHub.repo g = r /\
             gitHub.tag g = t /\ gitHub.asset g = a).
Proof.
  intros Ho Hr Ht Ha Hx Hghes.
  assert (He : ~ Occurs "/" "") by apply (not_Occurs_empty "/"%char).
  assert (Hrel : ~ Occurs "/" "releases").
  { apply (Occurs_byte "/"%char). intros Hin.
    repeat (apply elem_of_cons in Hin as [Hin|Hin]; [discriminate|]).
    by apply elem_of_nil in Hin. }
  assert (Hdl : ~ Occurs "/" "download").
  { apply (Occurs_byte "/"%char). intros Hin.
    repeat (apply elem_of_cons in Hin as [Hin|Hin]; [discriminate|]).
    by apply elem_of_nil in Hin. }
  assert (Hbuild : forall segs, segments u = segs -> (3 <= length segs)%nat ->
            exists g, gitHub.newGitHub W env u = inl g /\
              gitHub.owner g = segs !!! 1%nat /\ gitHub.repo g = segs !!! 2%nat /\
              gitHub.tag g =
                (if (5 <? length segs)%nat && bool_decide (segs !!! 3%nat = "releases")
                 then segs !!! 5%nat else "") /\
              gitHub.asset g =
                (if (5 <? length segs)%nat && bool_decide (segs !!! 3%nat = "releases")
                 then if (6 <? length segs)%nat
                         && bool_decide (segs !!! 4%nat = "download")
                      then segs !!! 6%nat else ""
                 else "")).
  { intros segs Hs Hlen. destruct (newGitHub_succeeds W env u) as [g Hg];
      [by rewrite Hs | done |].
    exists g. split; [done|]. apply newGitHub_inl in Hg. cbv zeta in Hg.
    rewrite Hs in Hg. tauto. }
  assert (Hjoin : forall segs, strings.Join segs "/"
            = of_bytes (strings.join (to_bytes "/") (to_bytes <$> segs))) by done.
  split_and!.
  - intros Hp. destruct (Hbuild [""; o; r]) as (g & Hg & H); [|simpl; lia|by exists g].
    apply segments_Join; [done|by repeat constructor|].
    rewrite Hp, Hjoin, <- (of_to_bytes (_ +:+ _)). f_equal.
    rewrite !to_bytes_app. simpl. by rewrite <- ?app_assoc.
  - intros Hp. destruct (Hbuild [""; o; r; "releases"; x; t]) as (g & Hg & H);
      [|simpl; lia|by exists g].
    apply segments_Join; [done|by repeat constructor|].
    rewrite Hp, Hjoin, <- (of_to_bytes (_ +:+ _)). f_equal.
    rewrite !to_bytes_app. simpl. by rewrite <- ?app_assoc.
  - intros Hp. destruct (Hbuild [""; o; r; "releases"; "download"; t; a])
      as (g & Hg & H); [|simpl; lia|by exists g].
    apply segments_Join; [done|by repeat constructor|].
    rewrite Hp, Hjoin, <- (of_to_bytes (_ +:+ _)). f_equal.
    rewrite !to_bytes_app. simpl. by rewrite <- ?app_assoc.
Qed.

(** X5. Without all three variables of an enterprise server (one or two of
    them set changes nothing) the API client is the public one, around
    an OAuth2 client for the personal token if there is one, and the
    construction cannot fail on the client. *)
Theorem newGitHub_public_client env u :
  ~ enterprise env -> (3 <= length (segments u))%nat ->
  exists g, gitHub.newGitHub W env u = inl g /\
    gitHub.client g =
      github.NewClient (if bool_decide (personalToken env ≠ "")
                        then Some (http.oauth2_NewClient (personalToken env))
                        else None).
Proof.
  intros Hent Hlen. destruct (newGitHub_succeeds W env u Hlen) as [g Hg]; [done|].
  exists g. split; [done|]. apply newGitHub_inl in Hg. cbv zeta in Hg.
  destruct Hg as (_ & _ & _ & _ & _ & _ & _ & Hc).
  by rewrite (bool_decide_false _ Hent) in Hc.
Qed.

End more_construction.

(** ** More on Fetch of the GitHub provider *)

Section more_fetch.
Context (W : World).
Implicit Types (g : gitHub.t) (opts : FetchOpts) (tr : list event).

Lemma effectiveTag_empty opts g :
  effectiveTag opts g = "" <-> Version opts = "" /\ gitHub.tag g = "".
Proof.
  unfold effectiveTag. case_bool_decide as Hv; split.
  - intros H. by rewrite H in Hv.
  - intros [H _]. by rewrite H in Hv.
  - intros H. split; [|done]. by destruct (decide (Version opts = "")).
  - by intros [_ H].
Qed.

(** The lookup by tag, for the version of the options or the tag of the
    provider alike. *)
Lemma lookupRelease_effective opts g tr :
  effectiveTag opts g <> "" ->
  gitHub.lookupRelease W opts g tr =
    let ans := GetReleaseByTag W (gitHub.client g) (gitHub.owner g)
                               (gitHub.repo g) (effectiveTag opts g) in
    (Ok (ans.1.1, ans.2), afterFetch opts g,
     tr ++ byTagLog g (effectiveTag opts g)).
Proof.
  intros Hne. unfold effectiveTag, afterFetch in *.
  case_bool_decide as Hv.
  - by apply lookupRelease_version.
  - apply lookupRelease_tag; [|done]. by destruct (decide (Version opts = "")).
Qed.

(** One call of the Releases API per [Fetch], and the receiver after it. *)
Lemma Fetch_calls opts g tr :
  exists evs,
    trace_of (gitHub.Fetch W opts g tr) = tr ++ evs /\
    receiver_of (gitHub.Fetch W opts g tr) = afterFetch opts g /\
    List.filter isReleaseCall evs = [releaseCall opts g].
Proof.
  destruct (Fetch_after_lookup W opts g tr) as (evs & Htr & Hno & Hrecv).
  rewrite Htr, Hrecv. unfold releaseCall.
  destruct (decide (effectiveTag opts g = "")) as [He|He].
  - rewrite (bool_decide_false _) by (by intros ?).
    apply effectiveTag_empty in He as [Hv Ht].
    rewrite (lookupRelease_latest W _ _ _ Hv Ht). unfold afterFetch.
    rewrite Hv. exists (latestLog g ++ evs).
    destruct (GetLatestRelease W _ _ _) as [[r [resp|]] e]; simpl;
      rewrite Hno; by rewrite <- app_assoc.
  - rewrite (bool_decide_true _ He), (lookupRelease_effective _ _ _ He).
    exists (byTagLog g (effectiveTag opts g) ++ evs). simpl. rewrite Hno.
    by rewrite <- app_assoc.
Qed.

(** X6. A version requested once sticks: a later [Fetch] on the same
    provider, with no version in its options, looks up the release of that
    version again, neither the latest release nor the tag the provider was
    constructed with. *)
Theorem Fetch_version_sticks opts1 opts2 g tr tr' :
  Version opts1 <> "" -> Version opts2 = "" ->
  let g1 := receiver_of (gitHub.Fetch W opts1 g tr) in
  exists evs,
    trace_of (gitHub.Fetch W opts2 g1 tr') = tr' ++ evs /\
    List.filter isReleaseCall evs
      = [CallGetReleaseByTag (gitHub.client g) (gitHub.owner g) (gitHub.repo g)
                             (Version opts1)] /\
    receiver_of (gitHub.Fetch W opts2 g1 tr') = g1.
Proof.
  intros Hv1 Hv2 g1.
  destruct (Fetch_calls opts1 g tr) as (_ & _ & Hr1 & _).
  assert (Hg1 : g1 = gitHub.set_tag (Version opts1) g).
  { subst g1. rewrite Hr1. unfold afterFetch. by rewrite (bool_decide_true _ Hv1). }
  destruct (Fetch_calls opts2 g1 tr') as (evs & Htr & Hr2 & Hc).
  exists evs. split; [done|]. split.
  - rewrite Hc, Hg1. unfold releaseCall, effectiveTag. rewrite Hv2. simpl.
    by rewrite (bool_decide_true _ Hv1).
  - rewrite Hr2. unfold afterFetch. by rewrite Hv2.
Qed.

(** X7. On the lookup by tag the response is not looked at: an error of
    the API call is returned as it is, with a nil response and with status
    404 alike. *)
Theorem Fetch_by_tag_error opts g tr rel resp e :
  effectiveTag opts g <> "" ->
  GetReleaseByTag W (gitHub.client g) (gitHub.owner g) (gitHub.repo g)
                  (effectiveTag opts g) = (rel, resp, Some e) ->
  gitHub.Fetch W opts g tr
    = (Err e, afterFetch opts g, tr ++ byTagLog g (effectiveTag opts g)).
Proof.
  intros Hne Hans.
  pose proof (lookupRelease_effective opts g tr Hne) as Hl.
  rewrite Hans in Hl. simpl in Hl.
  by rewrite (Fetch_lookup_err W _ _ _ _ _ _ _ Hl).
Qed.

(** X8. The headers of a download: Accept: application/octet-stream
    always, Authorization: token <token> exactly when the provider has a
    token, and nothing else, whatever headers the selected asset came
    with. *)
Theorem Fetch_sends_headers opts g tr :
  exists evs,
    trace_of (gitHub.Fetch W opts g tr) = tr ++ evs /\
    forall f gf, CallProcessURL f gf ∈ evs ->
      assets.ExtraHeaders gf !! "Accept" = Some "application/octet-stream" /\
      assets.ExtraHeaders gf !! "Authorization"
        = (if bool_decide (gitHub.token g ≠ "")
           then Some ("token " +:+ gitHub.token g) else None) /\
      forall k, k <> "Accept" -> k <> "Authorization" ->
                assets.ExtraHeaders gf !! k = None.
Proof.
  destruct (Fetch_download_headers W opts g tr) as (evs & Htr & Hh).
  exists evs. split; [done|]. intros f gf Hin. rewrite (Hh f gf Hin).
  unfold downloadHeaders. case_bool_decide; split_and!; intros;
    by simplify_map_eq.
Qed.

(** X9. What [Fetch] downloads is what the selection step chose among the
    candidates of the release it looked up: every download is preceded by
    a successful selection, so a failed selection means no download. *)
Theorem Fetch_downloads_selected opts g tr :
  exists evs,
    trace_of (gitHub.Fetch W opts g tr) = tr ++ evs /\
    forall f gf, CallProcessURL f gf ∈ evs ->
      f = filterOf opts /\
      exists r gf0,
        (answer W opts g).1.1 = Some r /\
        FilterAssets W (filterOf opts) (gitHub.repo g) (candidatesOf g r) = inl gf0 /\
        gf = withHeaders g gf0.
Proof.
  destruct (lookupRelease_shape W opts g tr) as (evs0 & Htr0 & Hno & Hrecv).
  destruct (gitHub.lookupRelease W opts g tr) as [[[[[r|] [e|]]|e|msg] g'] tr'] eqn:Hl;
    unfold receiver_of, trace_of in Htr0, Hrecv; simpl in Htr0, Hrecv; subst tr'.
  - rewrite (Fetch_lookup_err W _ _ _ _ _ _ _ Hl). exists evs0. split; [done|].
    intros f gf Hin. by destruct (Hno f gf).
  - pose proof (lookupRelease_answer W opts g tr (Some r) None) as Hans.
    rewrite Hl in Hans. specialize (Hans eq_refl).
    assert (Hsame : candidatesOf g' r = candidatesOf g r
                    /\ gitHub.repo g' = gitHub.repo g
                    /\ withHeaders g' = withHeaders g).
    { by destruct Hrecv as [-> | ->]. }
    destruct Hsame as (Hc & Hr & Hh).
    rewrite (Fetch_lookup_ok W _ _ _ _ _ _ Hl). cbv zeta.
    assert (Hlog : forall f gf, CallProcessURL f gf ∉ candidatesLog g' r).
    { intros f gf. unfold candidatesLog. destruct (requested _ _).
      - apply not_elem_of_nil.
      - case_bool_decide; [|apply not_elem_of_nil].
        intros Hin. by apply list_elem_of_singleton in Hin. }
    rewrite Hc, Hr, Hh.
    destruct (FilterAssets W _ _ _) as [gf0|e] eqn:Hfa;
      [destruct (ProcessURL W _ _) as [out|e]|]; simpl;
      rewrite <- ?app_assoc; (eexists; split; [done|]); intros f gf Hin;
      repeat (apply elem_of_app in Hin as [Hin|Hin]);
      try (by destruct (Hno f gf)); try (by destruct (Hlog f gf));
      apply list_elem_of_singleton in Hin; simplify_eq;
      (split; [done|]); exists r, gf0; by rewrite <- Hans.
  - rewrite (Fetch_lookup_err W _ _ _ _ _ _ _ Hl). exists evs0. split; [done|].
    intros f gf Hin. by destruct (Hno f gf).
  - rewrite (Fetch_lookup_nil W _ _ _ _ _ Hl). exists evs0. split; [done|].
    intros f gf Hin. by destruct (Hno f gf).
  - exists evs0. unfold gitHub.Fetch. run. rewrite Hl. split; [done|].
    intros f gf Hin. by destruct (Hno f gf).
  - rewrite (Fetch_lookup_panic W _ _ _ _ _ _ Hl). exists evs0. split; [done|].
    intros f gf Hin. by destruct (Hno f gf).
Qed.

(** X10. GetLatestVersion of the GitHub provider asks for the latest
    release whatever the tag of the provider, leaves the provider alone,
    and does not look at the response: an error of the API call is
    returned as it is, also with a nil response (where [Fetch] stops on a
    nil pointer) and with status 404 (where [Fetch] words its own error);
    without error it returns tag name and page of the release. *)
Theorem gitHub_GetLatestVersion_spec g tr rel resp err :
  GetLatestRelease W (gitHub.client g) (gitHub.owner g) (gitHub.repo g)
    = (rel, resp, err) ->
  forall t,
    gitHub.GetLatestVersion W (gitHub.set_tag t g) tr
    = (match err with
       | Some e => Err e
       | None => Ok (github.GetTagName rel, github.GetHTMLURL rel)
       end,
       gitHub.set_tag t g,
       tr ++ [Log Debug ("Getting latest release for "
                         +:+ gitHub.owner g +:+ "/" +:+ gitHub.repo g);
              CallGetLatestRelease (gitHub.client g) (gitHub.owner g)
                                   (gitHub.repo g)]).
Proof.
  intros Hans t. unfold gitHub.GetLatestVersion. run. rewrite Hans.
  destruct err; simpl; by rewrite <- app_assoc.
Qed.


End more_fetch.

(** ** More on the candidates *)

Section more_candidates.
Implicit Types (a : github.ReleaseAsset) (userAsset : string).

Lemma requested_first userAsset l1 a l2 :
  userAsset <> "" -> github.GetName a = userAsset ->
  (forall b, b ∈ l1 -> github.GetName b <> userAsset) ->
  requested userAsset (l1 ++ a :: l2) = Some a.
Proof.
  intros Hne Ha. unfold requested. induction l1 as [|b l1 IH]; intros Hl1; simpl.
  - by rewrite (bool_decide_true _ Hne), (bool_decide_true _ Ha).
  - rewrite (bool_decide_false (github.GetName b = userAsset)), andb_false_r.
    + apply IH. intros c Hc. apply Hl1. by right.
    + apply Hl1. by left.
Qed.

(** X14. The candidates are always taken from the release, in release
    order: either the one asset that was asked for or all of them; there
    are no candidates only when the release has no assets. *)
Theorem getCandidates_sublist {R} (githubAssets : list github.ReleaseAsset)
    userAsset (r : R) (tr : list event) :
  exists cs warn,
    gitHub.getCandidates githubAssets userAsset r tr = (Ok cs, r, tr ++ warn) /\
    cs `sublist_of` (gitHub.toAsset <$> githubAssets) /\
    (length cs = 1%nat \/ cs = gitHub.toAsset <$> githubAssets) /\
    (cs = [] <-> githubAssets = []).
Proof.
  rewrite getCandidates_eq.
  destruct (requested userAsset githubAssets) as [a|] eqn:Hreq.
  - exists [gitHub.toAsset a], []. rewrite app_nil_r.
    apply requested_Some in Hreq as (Hin & _).
    apply list_elem_of_split in Hin as (l1 & l2 & ->).
    split_and!; [done| |by left|split; [done|by destruct l1]].
    rewrite fmap_app, fmap_cons.
    apply sublist_inserts_l, sublist_skip, sublist_nil_l.
  - eexists _, _. split_and!; [done|done|by right|].
    split; [apply fmap_nil_inv | by intros ->].
Qed.

(** X15. Among several assets of the requested name the first one in
    release order is the candidate. *)
Theorem getCandidates_first_match {R} l1 a l2 userAsset (r : R) (tr : list event) :
  userAsset <> "" -> github.GetName a = userAsset ->
  (forall b, b ∈ l1 -> github.GetName b <> userAsset) ->
  gitHub.getCandidates (l1 ++ a :: l2) userAsset r tr
    = (Ok [gitHub.toAsset a], r, tr).
Proof.
  intros Hne Ha Hl1. rewrite getCandidates_eq.
  by rewrite (requested_first _ _ _ _ Hne Ha Hl1).
Qed.

End more_candidates.

(** ** More on the generic provider *)

Section more_generic.
Context (W : World).
Implicit Types (g : generic.t) (opts : FetchOpts) (tr : list event).

Lemma generic_Fetch_eq opts g tr :
  generic.Fetch W opts g tr =
    match generic.GetLatestVersion W g tr with
    | (Ok (version, versionURL), g', tr') =>
        let gf := assets.mkFilteredAsset "" versionURL ∅ in
        match ProcessURL W (filterOf opts) gf with
        | inr e => (Err e, g', tr' ++ [CallProcessURL (filterOf opts) gf])
        | inl outFile =>
            (Ok (mkFile (assets.Source outFile)
                        (if bool_decide (assets.OutFile_Name outFile = "")
                         then filepath_Base W versionURL
                         else assets.OutFile_Name outFile)
                        version (assets.OutFile_PackagePath outFile)),
             g', tr' ++ [CallProcessURL (filterOf opts) gf])
        end
    | (Err e, g', tr') => (Err e, g', tr')
    | (Panic msg, g', tr') => (Panic msg, g', tr')
    end.
Proof.
  unfold generic.Fetch, filterOf. run.
  destruct (generic.GetLatestVersion W g tr) as [[[[v u]|e|msg] g'] tr']; simpl;
    [|done..].
  by destruct (ProcessURL W _ _) as [out|e].
Qed.

Lemma GetLatestVersion_shape g tr :
  receiver_of (generic.GetLatestVersion W g tr) = g /\
  trace_of (generic.GetLatestVersion W g tr) = tr ++ askLog W g /\
  forall msg, outcome_of (generic.GetLatestVersion W g tr) <> Panic msg.
Proof.
  rewrite GetLatestVersion_eq.
  destruct (http_Get W _ _) as [resp|e]; [|done].
  destruct (http.Body resp) as [content|e]; [|done]. cbv zeta.
  by destruct (url_Parse W _) as [u|e].
Qed.

(** X16. The file of a successful generic [Fetch]: its version is the
    resolved one, its bytes and package path are those of the download of
    the resolved URL (asked for without name and without headers), and its
    name is the one the download gave or, when that is empty, the base of
    the resolved URL. *)
Theorem generic_Fetch_file opts g tr file :
  outcome_of (generic.Fetch W opts g tr) = Ok file ->
  exists versionURL outFile,
    outcome_of (generic.GetLatestVersion W g tr) = Ok (File_Version file, versionURL) /\
    ProcessURL W (filterOf opts) (assets.mkFilteredAsset "" versionURL ∅)
      = inl outFile /\
    File_Data file = assets.Source outFile /\
    File_PackagePath file = assets.OutFile_PackagePath outFile /\
    (assets.OutFile_Name outFile <> "" ->
     File_Name file = assets.OutFile_Name outFile) /\
    (assets.OutFile_Name outFile = "" ->
     File_Name file = filepath_Base W versionURL).
Proof.
  rewrite generic_Fetch_eq.
  destruct (generic.GetLatestVersion W g tr) as [[[[v u]|e|msg] g'] tr'];
    [|done..]. cbv zeta.
  destruct (ProcessURL W _ _) as [out|e] eqn:Hp; [|done].
  intros [= <-]. exists u, out. simpl. split_and!; try done.
  - intros Hne. by rewrite (bool_decide_false _ Hne).
  - intros He. by rewrite (bool_decide_true _ He).
Qed.

(** X17. A generic [Fetch] whose version resolution fails returns that
    error without asking for any download; the provider is left as it was
    in every case, there is one request to the version endpoint and at
    most one download. *)
Theorem generic_Fetch_failure opts g tr :
  receiver_of (generic.Fetch W opts g tr) = g /\
  (forall e, outcome_of (generic.GetLatestVersion W g tr) = Err e ->
     generic.Fetch W opts g tr = (Err e, g, tr ++ askLog W g)) /\
  (forall version versionURL,
     outcome_of (generic.GetLatestVersion W g tr) = Ok (version, versionURL) ->
     trace_of (generic.Fetch W opts g tr)
       = tr ++ askLog W g
            ++ [CallProcessURL (filterOf opts)
                               (assets.mkFilteredAsset "" versionURL ∅)] /\
     forall e, ProcessURL W (filterOf opts)
                          (assets.mkFilteredAsset "" versionURL ∅) = inr e ->
               outcome_of (generic.Fetch W opts g tr) = Err e).
Proof.
  destruct (GetLatestVersion_shape g tr) as (Hr & Ht & Hp).
  rewrite generic_Fetch_eq.
  destruct (generic.GetLatestVersion W g tr) as [[[[v u]|e|msg] g'] tr'];
    unfold receiver_of, trace_of, outcome_of in *; simpl in *; subst.
  - cbv zeta. destruct (ProcessURL W _ _) as [out|e] eqn:Hpu; simpl;
      (split_and!; [done|done|]); intros ?? [= <- <-];
      rewrite Hpu; rewrite <- app_assoc; split; try done.
    intros e0 [= <-]. done.
  - split_and!; [done| |done]. by intros ? [= <-].
  - by destruct (Hp msg).
Qed.

End more_generic.

(** ** White space around a body *)

Section more_trimming.
Import strings.
Implicit Types (s t l r e : list ascii).

(** The encodings of the white-space runes: none is the start or the end
    of another one, and none goes on with a byte that another one starts
    with. *)
Lemma spaceRunes_prefix_free e e' :
  e ∈ unicode.spaceRunes -> e' ∈ unicode.spaceRunes -> e' `prefix_of` e -> e' = e.
Proof.
  assert (H : forallb (fun e => forallb (fun e' =>
                implb (hasPrefix e' e) (bool_decide (e' = e)))
                unicode.spaceRunes) unicode.spaceRunes = true)
    by (vm_compute; reflexivity).
  intros He He' Hp. rewrite forallb_forall in H.
  apply list_elem_of_In in He, He'. specialize (H e He).
  rewrite forallb_forall in H. specialize (H e' He').
  assert (Hb : hasPrefix e' e = true) by (by apply bool_decide_eq_true).
  rewrite Hb in H. simpl in H. by apply bool_decide_eq_true in H.
Qed.

Lemma spaceRunes_suffix_free e e' :
  e ∈ unicode.spaceRunes -> e' ∈ unicode.spaceRunes -> e' `suffix_of` e -> e' = e.
Proof.
  assert (H : forallb (fun e => forallb (fun e' =>
                implb (hasSuffix e' e) (bool_decide (e' = e)))
                unicode.spaceRunes) unicode.spaceRunes = true)
    by (vm_compute; reflexivity).
  intros He He' Hp. rewrite forallb_forall in H.
  apply list_elem_of_In in He, He'. specialize (H e He).
  rewrite forallb_forall in H. specialize (H e' He').
  assert (Hb : hasSuffix e' e = true) by (by apply bool_decide_eq_true).
  rewrite Hb in H. simpl in H. by apply bool_decide_eq_true in H.
Qed.

Lemma spaceRunes_inner_bytes e e1 x :
  e ∈ unicode.spaceRunes -> e1 ∈ unicode.spaceRunes ->
  x ∈ tail e -> head e1 <> Some x.
Proof.
  assert (H : forallb (fun e => forallb (fun e1 => forallb (fun x =>
                negb (bool_decide (head e1 = Some x))) (tail e))
                unicode.spaceRunes) unicode.spaceRunes = true)
    by (vm_compute; reflexivity).
  intros He He1 Hx. rewrite forallb_forall in H.
  apply list_elem_of_In in He, He1, Hx. specialize (H e He).
  rewrite forallb_forall in H. specialize (H e1 He1).
  rewrite forallb_forall in H. specialize (H x Hx).
  apply negb_true_iff in H. by apply bool_decide_eq_false in H.
Qed.

Lemma leadingSpace_rune e s :
  e ∈ unicode.spaceRunes -> leadingSpace (e ++ s) = Some e.
Proof.
  intros He. destruct (leadingSpace (e ++ s)) as [e'|] eqn:Hl.
  - apply List.find_some in Hl as [Hin Hp]. apply list_elem_of_In in Hin.
    apply bool_decide_eq_true in Hp. f_equal.
    assert (He0 : e `prefix_of` e ++ s) by (by exists s).
    destruct (prefix_weak_total e' e (e ++ s) Hp He0) as [H|H].
    + by apply spaceRunes_prefix_free.
    + symmetry. by apply spaceRunes_prefix_free.
  - by destruct (leadingSpace_None _ e s Hl He).
Qed.

Lemma trailingSpace_rune e s :
  e ∈ unicode.spaceRunes -> trailingSpace (s ++ e) = Some e.
Proof.
  intros He. destruct (trailingSpace (s ++ e)) as [e'|] eqn:Hl.
  - apply List.find_some in Hl as [Hin Hp]. apply list_elem_of_In in Hin.
    apply bool_decide_eq_true in Hp. f_equal.
    assert (He0 : e `suffix_of` s ++ e) by (by exists s).
    destruct (suffix_weak_total e' e (s ++ e) Hp He0) as [H|H].
    + by apply spaceRunes_suffix_free.
    + symmetry. by apply spaceRunes_suffix_free.
  - by destruct (trailingSpace_None _ e s Hl He).
Qed.

(** Any fuel of at least the length does. *)
Lemma trimLeft_fuel n m s :
  (length s <= n)%nat -> (length s <= m)%nat -> trimLeft n s = trimLeft m s.
Proof.
  revert m s. induction n as [|n IH]; intros m s Hn Hm.
  - destruct s; [|simpl in Hn; lia]. by destruct m.
  - destruct m as [|m].
    + destruct s; [done | simpl in Hm; lia].
    + simpl. destruct (leadingSpace s) as [e|] eqn:He; [|done].
      apply leadingSpace_Some in He as [Hin Hs].
      apply spaceRunes_nonempty in Hin.
      apply IH; rewrite length_drop; lia.
Qed.

Lemma trimRight_fuel n m s :
  (length s <= n)%nat -> (length s <= m)%nat -> trimRight n s = trimRight m s.
Proof.
  revert m s. induction n as [|n IH]; intros m s Hn Hm.
  - destruct s; [|simpl in Hn; lia]. by destruct m.
  - destruct m as [|m].
    + destruct s; [done | simpl in Hm; lia].
    + simpl. destruct (trailingSpace s) as [e|] eqn:He; [|done].
      apply trailingSpace_Some in He as [Hin Hs].
      apply spaceRunes_nonempty in Hin.
      apply IH; rewrite length_take; lia.
Qed.

Lemma trimL_rune e s : e ∈ unicode.spaceRunes -> trimL (e ++ s) = trimL s.
Proof.
  intros He. unfold trimL. pose proof (spaceRunes_nonempty e He) as Hlen.
  rewrite length_app. destruct (length e + length s)%nat as [|n] eqn:Hn; [lia|].
  simpl. rewrite (leadingSpace_rune e s He), drop_app_length.
  apply trimLeft_fuel; lia.
Qed.

Lemma trimR_rune e s : e ∈ unicode.spaceRunes -> trimR (s ++ e) = trimR s.
Proof.
  intros He. unfold trimR. pose proof (spaceRunes_nonempty e He) as Hlen.
  rewrite length_app. destruct (length s + length e)%nat as [|n] eqn:Hn; [lia|].
  simpl. rewrite (trailingSpace_rune e s He), length_app.
  replace (length s + length e - length e)%nat with (length s) by lia.
  rewrite take_app_length. apply trimRight_fuel; lia.
Qed.

Lemma trimL_AllSpace l s : AllSpace l -> trimL (l ++ s) = trimL s.
Proof.
  induction 1 as [|e l He Hl IH]; [done|].
  by rewrite <- app_assoc, trimL_rune.
Qed.

Lemma AllSpace_concat r :
  AllSpace r -> exists es, Forall (fun e => e ∈ unicode.spaceRunes) es /\ r = concat es.
Proof.
  induction 1 as [|e r He Hr (es & Hes & ->)].
  - by exists [].
  - exists (e :: es). split; [by constructor | done].
Qed.

Lemma trimR_AllSpace s r : AllSpace r -> trimR (s ++ r) = trimR s.
Proof.
  intros Hr. apply AllSpace_concat in Hr as (es & Hes & ->).
  induction es as [|e es IH] using rev_ind; [by rewrite app_nil_r|].
  apply Forall_app in Hes as [Hes He]. apply Forall_inv in He.
  rewrite concat_app. simpl. rewrite app_nil_r, app_assoc.
  rewrite (trimR_rune e _ He). by apply IH.
Qed.

Lemma trimL_nil_AllSpace s : AllSpace s -> trimL s = [].
Proof. intros H. rewrite <- (app_nil_r s). by rewrite trimL_AllSpace. Qed.

Lemma trimL_fixed t : leadingSpace t = None -> trimL t = t.
Proof.
  intros H. unfold trimL. destruct (length t); [done|]. simpl. by rewrite H.
Qed.

(** White space after a trimmed start does not make it start with white
    space. *)
Lemma leadingSpace_app t r :
  t <> [] -> leadingSpace t = None -> AllSpace r -> leadingSpace (t ++ r) = None.
Proof.
  intros Hne Ht Hr. destruct (leadingSpace (t ++ r)) as [e'|] eqn:Hl; [|done].
  exfalso. apply leadingSpace_Some in Hl as [He' Heq].
  set (k := drop (length e') (t ++ r)) in Heq.
  assert (Hp : e' `prefix_of` t ++ r) by (by exists k).
  assert (Ht0 : t `prefix_of` t ++ r) by (by exists r).
  destruct (prefix_weak_total e' t (t ++ r) Hp Ht0) as [[k' Hk']|[k' Hk']].
  - by apply (leadingSpace_None t e' k' Ht He').
  - destruct k' as [|x k'].
    { rewrite app_nil_r in Hk'. subst e'.
      apply (leadingSpace_None t t [] Ht He'). by rewrite app_nil_r. }
    rewrite Hk', <- app_assoc in Heq. apply app_inv_head in Heq.
    destruct Hr as [|e1 r He1 Hr]; [done|].
    pose proof (spaceRunes_nonempty e1 He1) as Hlen1.
    destruct e1 as [|y e1]; [simpl in Hlen1; lia|].
    simpl in Heq. injection Heq as -> _.
    apply (spaceRunes_inner_bytes e' (x :: e1) x He' He1); [|done].
    rewrite Hk'. destruct t as [|z t]; [done|]. simpl.
    apply elem_of_app. right. by left.
Qed.

Lemma trim_around l s r :
  AllSpace l -> AllSpace r -> trimR (trimL (l ++ s ++ r)) = trimR (trimL s).
Proof.
  intros Hl Hr. rewrite (trimL_AllSpace l _ Hl).
  destruct (trimLeft_split (length s) s) as (l0 & Hs & Hl0).
  pose proof (trimLeft_done (length s) s (le_n _)) as Hlead.
  fold (trimL s) in Hs, Hlead.
  rewrite Hs at 1. rewrite <- app_assoc, (trimL_AllSpace l0 _ Hl0).
  destruct (decide (trimL s = [])) as [He|Hne].
  - rewrite He. simpl. by rewrite (trimL_nil_AllSpace r Hr).
  - rewrite trimL_fixed.
    + by apply trimR_AllSpace.
    + by apply leadingSpace_app.
Qed.

End more_trimming.

(** [strings.TrimSpace] does not see white space around a string. *)
Lemma TrimSpace_around l s r :
  WhiteSpace l -> WhiteSpace r ->
  strings.TrimSpace (l +:+ s +:+ r) = strings.TrimSpace s.
Proof.
  intros Hl Hr. unfold strings.TrimSpace. cbv zeta. f_equal.
  rewrite !to_bytes_app. by apply trim_around.
Qed.

Section more_generic_bodies.
Context (W : World).
Implicit Types (g : generic.t) (opts : FetchOpts) (tr : list event).

(** X19. The generic provider reads the body of the answer of its version
    endpoint up to the white space around it, and does not read the status
    code: two worlds with the same URL codec whose version endpoints answer
    with bodies that differ in leading and trailing white space only,
    whatever the status codes, give the same result. *)
Theorem generic_body_only (W' : World) g tr resp resp' body l r :
  url_Parse W = url_Parse W' -> URL_String W = URL_String W' ->
  http_Get W (generic.client g) (endpoint W g) = inl resp ->
  http_Get W' (generic.client g) (endpoint W' g) = inl resp' ->
  http.Body resp = inl body ->
  http.Body resp' = inl (l +:+ body +:+ r) ->
  WhiteSpace l -> WhiteSpace r ->
  generic.GetLatestVersion W g tr = generic.GetLatestVersion W' g tr.
Proof.
  intros Hparse Hstr Hget Hget' Hbody Hbody' Hl Hr.
  rewrite !GetLatestVersion_eq, Hget, Hget', Hbody, Hbody'. cbv zeta.
  rewrite (TrimSpace_around l body r Hl Hr).
  unfold askLog, endpoint. by rewrite Hparse, Hstr.
Qed.


End more_generic_bodies.

(** ** Where errors and panics come from *)

Section origins.
Context (W : World).
Implicit Types (opts : FetchOpts) (tr : list event).

(** The lookup of [Fetch], by the answer of the Releases API. *)
Lemma lookupRelease_by_answer opts (g : gitHub.t) tr :
  outcome_of (gitHub.lookupRelease W opts g tr) =
    match answer W opts g with
    | (rel, resp, err) =>
        if bool_decide (effectiveTag opts g ≠ "") then Ok (rel, err)
        else match resp with
             | None => Panic nilDeref
             | Some resp =>
                 Ok (rel, if bool_decide (github.StatusCode resp = 404%Z)
                          then Some (noReleases g) else err)
             end
    end.
Proof.
  unfold answer. destruct (decide (effectiveTag opts g = "")) as [He|He].
  - rewrite (bool_decide_false _) by (by intros ?).
    apply effectiveTag_empty in He as [Hv Ht].
    rewrite (lookupRelease_latest W _ _ _ Hv Ht).
    by destruct (GetLatestRelease W _ _ _) as [[rel [resp|]] err].
  - rewrite (bool_decide_true _ He), (lookupRelease_effective W _ _ _ He).
    by destruct (GetReleaseByTag W _ _ _ _) as [[rel resp] err].
Qed.

Lemma lookupRelease_receiver opts (g : gitHub.t) tr :
  receiver_of (gitHub.lookupRelease W opts g tr) = afterFetch opts g.
Proof.
  destruct (decide (effectiveTag opts g = "")) as [He|He].
  - apply effectiveTag_empty in He as [Hv Ht].
    rewrite (lookupRelease_latest W _ _ _ Hv Ht). unfold afterFetch. rewrite Hv.
    by destruct (GetLatestRelease W _ _ _) as [[rel [resp|]] err].
  - by rewrite (lookupRelease_effective W _ _ _ He).
Qed.


Lemma lookupRelease_no_err opts (g : gitHub.t) tr rel :
  outcome_of (gitHub.lookupRelease W opts g tr) = Ok (rel, None) <->
  (answer W opts g).1.1 = rel /\ (answer W opts g).2 = None /\
  (effectiveTag opts g = "" ->
   exists resp, (answer W opts g).1.2 = Some resp /\
                github.StatusCode resp <> 404%Z).
Proof.
  rewrite lookupRelease_by_answer.
  destruct (answer W opts g) as [[rel0 resp] err]. simpl.
  case_bool_decide as Het.
  - split.
    + intros [= -> ->]. split_and!; [done..|]. by intros ?.
    + by intros (-> & -> & _).
  - assert (He : effectiveTag opts g = "")
      by (by destruct (decide (effectiveTag opts g = ""))).
    destruct resp as [resp|].
    + case_bool_decide as Hst.
      * split; [done|]. intros (_ & _ & Hr).
        destruct (Hr He) as (resp0 & [= <-] & Hne). done.
      * split.
        -- intros [= -> ->]. split_and!; [done..|]. intros _. by exists resp.
        -- by intros (-> & -> & _).
    + split; [done|]. intros (_ & _ & Hr). by destruct (Hr He) as (? & ? & _).
Qed.

Lemma lookupRelease_panics opts (g : gitHub.t) tr :
  (exists msg, outcome_of (gitHub.lookupRelease W opts g tr) = Panic msg) <->
  effectiveTag opts g = "" /\ (answer W opts g).1.2 = None.
Proof.
  rewrite lookupRelease_by_answer.
  destruct (answer W opts g) as [[rel0 resp] err]. simpl.
  case_bool_decide as Het.
  - split; [by intros [? ?] | by intros [? _]].
  - assert (He : effectiveTag opts g = "")
      by (by destruct (decide (effectiveTag opts g = ""))).
    destruct resp as [resp|]; (split; [|intros [_ ?]]); try done.
    + by intros [? ?].
    + by eexists.
Qed.


(** What [Fetch] makes of the outcome of its lookup. *)
Lemma Fetch_by_lookup opts (g : gitHub.t) tr :
  outcome_of (gitHub.Fetch W opts g tr) =
    match outcome_of (gitHub.lookupRelease W opts g tr) with
    | Ok (_, Some e) => Err e
    | Ok (None, None) => Panic nilDeref
    | Ok (Some r, None) =>
        match FilterAssets W (filterOf opts) (gitHub.repo g) (candidatesOf g r) with
        | inr e => Err e
        | inl gf =>
            match ProcessURL W (filterOf opts) (withHeaders g gf) with
            | inr e => Err e
            | inl outFile =>
                Ok (mkFile (assets.Source outFile) (assets.OutFile_Name outFile)
                           (github.GetTagName (Some r))
                           (assets.OutFile_PackagePath outFile))
            end
        end
    | Err e => Err e
    | Panic msg => Panic msg
    end.
Proof.
  pose proof (lookupRelease_receiver opts g tr) as Hr.
  destruct (gitHub.lookupRelease W opts g tr) as [[[[[r|] [e0|]]|e0|msg] g'] tr'] eqn:Hlk;
    unfold outcome_of, receiver_of in *; simpl in *.
  - by rewrite (Fetch_lookup_err W _ _ _ _ _ _ _ Hlk).
  - assert (Hsame : candidatesOf g' r = candidatesOf g r
                    /\ gitHub.repo g' = gitHub.repo g
                    /\ withHeaders g' = withHeaders g).
    { subst g'. unfold afterFetch. by case_bool_decide. }
    destruct Hsame as (Hc & Hrp & Hh).
    rewrite (Fetch_lookup_ok W _ _ _ _ _ _ Hlk). cbv zeta. rewrite Hc, Hrp, Hh.
    destruct (FilterAssets W _ _ _) as [gf|e1]; [|done].
    by destruct (ProcessURL W _ _).
  - by rewrite (Fetch_lookup_err W _ _ _ _ _ _ _ Hlk).
  - by rewrite (Fetch_lookup_nil W _ _ _ _ _ Hlk).
  - unfold gitHub.Fetch. run. by rewrite Hlk.
  - by rewrite (Fetch_lookup_panic W _ _ _ _ _ _ Hlk).
Qed.


(** X13. [Fetch] of the GitHub provider stops on a nil pointer in two
    cases only: looking up the latest release, when the API call returns no
    response; and when the API call returns neither a release nor an error
    (and, for the latest release, a response with a status other than
    404). *)
Theorem Fetch_panic_iff opts (g : gitHub.t) tr :
  (exists msg, outcome_of (gitHub.Fetch W opts g tr) = Panic msg) <->
  (effectiveTag opts g = "" /\ (answer W opts g).1.2 = None) \/
  ((answer W opts g).1.1 = None /\ (answer W opts g).2 = None /\
   (effectiveTag opts g = "" ->
    exists resp, (answer W opts g).1.2 = Some resp /\
                 github.StatusCode resp <> 404%Z)).
Proof.
  rewrite <- (lookupRelease_panics opts g tr), <- (lookupRelease_no_err opts g tr None).
  rewrite Fetch_by_lookup.
  destruct (outcome_of (gitHub.lookupRelease W opts g tr))
    as [[[r|] [e0|]]|e0|msg].
  - split; [by intros [? ?] | by intros [[? ?]|?]].
  - split; [|by intros [[? ?]|?]].
    destruct (FilterAssets W _ _ _); [destruct (ProcessURL W _ _)|];
      by intros [? ?].
  - split; [by intros [? ?] | by intros [[? ?]|?]].
  - split; [by right | by eexists].
  - split; [by intros [? ?] | by intros [[? ?]|?]].
  - split; [intros _; left; by eexists | by eexists].
Qed.

(** X18. A generic [Fetch] neither swallows nor invents an error: the
    error it returns is the one of the request to the version endpoint, of
    reading its body, of parsing the substituted template, or of the
    download step; and it never stops on a nil pointer. *)
Theorem generic_Fetch_error_origin opts (g : generic.t) tr :
  (forall msg, outcome_of (generic.Fetch W opts g tr) <> Panic msg) /\
  forall e, outcome_of (generic.Fetch W opts g tr) = Err e ->
    http_Get W (generic.client g) (endpoint W g) = inr e \/
    (exists resp, http_Get W (generic.client g) (endpoint W g) = inl resp /\
       (http.Body resp = inr e \/
        exists body, http.Body resp = inl body /\
          (url_Parse W (substituted g (strings.TrimSpace body)) = inr e \/
           exists t, url_Parse W (substituted g (strings.TrimSpace body)) = inl t /\
             ProcessURL W (filterOf opts)
                        (assets.mkFilteredAsset "" (URL_String W t) ∅) = inr e))).
Proof.
  rewrite generic_Fetch_eq, GetLatestVersion_eq. unfold outcome_of.
  destruct (http_Get W _ _) as [resp|e0]; simpl.
  2: { split; [done|]. intros e [= <-]. by left. }
  destruct (http.Body resp) as [body|e0] eqn:Hb; simpl.
  2: { split; [done|]. intros e [= <-]. right. exists resp. split; [done|]. by left. }
  destruct (url_Parse W _) as [t|e0] eqn:Hp; simpl.
  2: { split; [done|]. intros e [= <-]. right. exists resp. split; [done|]. right.
       exists body. split; [done|]. by left. }
  destruct (ProcessURL W _ _) as [out|e0] eqn:Hpu; simpl; (split; [done|]); [done|].
  intros e [= <-]. right. exists resp. split; [done|]. right.
  exists body. split; [done|]. right. by exists t.
Qed.

End origins.

(** ** The further scenarios, run *)

Section more_runs.
Import scenario.

Lemma newGitHub_fields_slash_free_witness :
  ~ Occurs "/" "owner" /\ ~ Occurs "/" "repo" /\
  ~ Occurs "/" "v1.2.3" /\ ~ Occurs "/" "tool-linux-amd64".
Proof.
  apply (newGitHub_fields_slash_free fake.offline ∅ downloadURL
           (gitHub.mk downloadURL (github.NewClient None) "owner" "repo" "v1.2.3"
                      "tool-linux-amd64" "")).
  vm_compute. reflexivity.
Defined.

Lemma newGitHub_tag_asset_origin_witness :
  segments downloadURL !! 3%nat = Some "releases" /\
  segments downloadURL !! 4%nat = Some "download" /\
  segments downloadURL !! 5%nat = Some "v1.2.3" /\
  segments downloadURL !! 6%nat = Some "tool-linux-amd64".
Proof.
  pose proof (newGitHub_tag_asset_origin fake.offline ∅ downloadURL
                (gitHub.mk downloadURL (github.NewClient None) "owner" "repo" "v1.2.3"
                           "tool-linux-amd64" "")) as H.
  cbv zeta in H. destruct H as (_ & H).
  { vm_compute. reflexivity. }
  apply H. discriminate.
Defined.

Lemma newGitHub_two_slashes_witness :
  gitHub.newGitHub fake.offline ∅ ownerURL
  = inr ("error parsing Github URL " +:+ URL_String fake.offline ownerURL
         +:+ ", can't find owner and repo").
Proof.
  destruct (newGitHub_two_slashes fake.offline ∅ ownerURL) as (H & _).
  apply H. vm_compute. lia.
Defined.

Lemma newGitHub_round_trip_witness :
  exists g, gitHub.newGitHub fake.offline ∅ downloadURL = inl g /\
            gitHub.owner g = "owner" /\ gitHub.repo g = "repo" /\
            gitHub.tag g = "v1.2.3" /\ gitHub.asset g = "tool-linux-amd64".
Proof.
  assert (Hfree : forall s, bool_decide ("/"%char ∈ to_bytes s) = false ->
                            ~ Occurs "/" s).
  { intros s Hs. apply (Occurs_byte "/"%char).
    apply bool_decide_eq_false in Hs. exact Hs. }
  destruct (newGitHub_round_trip fake.offline ∅ downloadURL
              "owner" "repo" "v1.2.3" "tool-linux-amd64" "tag")
    as (_ & _ & H); try (apply Hfree; vm_compute; reflexivity).
  { intros (Hent & _). exfalso. apply Hent. reflexivity. }
  apply H. reflexivity.
Defined.

Lemma newGitHub_public_client_witness :
  exists g, gitHub.newGitHub fake.offline partialEnv repoURL = inl g /\
            gitHub.client g = github.NewClient (Some (http.oauth2_NewClient "B")).
Proof.
  destruct (newGitHub_public_client fake.offline partialEnv repoURL) as (g & Hg & Hc).
  { intros (_ & H & _). apply H. reflexivity. }
  { vm_compute. lia. }
  exists g. split; [exact Hg|]. rewrite Hc. reflexivity.
Defined.

Lemma Fetch_version_sticks_witness :
  exists evs,
    trace_of (gitHub.Fetch released noOpts
                (receiver_of (gitHub.Fetch released ensureOpts taggedProvider [])) [])
      = [] ++ evs /\
    List.filter isReleaseCall evs
      = [CallGetReleaseByTag (github.NewClient None) "owner" "repo" "v2.0.0"].
Proof.
  destruct (Fetch_version_sticks released ensureOpts noOpts taggedProvider [] [])
    as (evs & Htr & Hc & _); [discriminate | reflexivity |].
  exists evs. split; [exact Htr | exact Hc].
Defined.

Lemma Fetch_by_tag_error_witness :
  outcome_of (gitHub.Fetch tagUnreachable noOpts taggedProvider [])
  = Err "dial tcp: connection refused".
Proof.
  rewrite (Fetch_by_tag_error tagUnreachable noOpts taggedProvider [] None None
             "dial tcp: connection refused"); [reflexivity | discriminate | reflexivity].
Defined.

Lemma Fetch_sends_headers_witness :
  exists f gf,
    CallProcessURL f gf ∈ trace_of (gitHub.Fetch released noOpts tokenProvider []) /\
    assets.ExtraHeaders gf !! "Accept" = Some "application/octet-stream" /\
    assets.ExtraHeaders gf !! "Authorization" = Some "token A" /\
    assets.ExtraHeaders gf !! "Content-Type" = None.
Proof.
  destruct (Fetch_sends_headers released noOpts tokenProvider []) as (evs & Htr & H).
  simpl app in Htr.
  exists (filterOf noOpts),
         (withHeaders tokenProvider
            (assets.mkFilteredAsset "a.tar.gz" "https://api.github.com/assets/1" ∅)).
  assert (Hin : CallProcessURL (filterOf noOpts)
                  (withHeaders tokenProvider
                     (assets.mkFilteredAsset "a.tar.gz"
                        "https://api.github.com/assets/1" ∅))
                ∈ trace_of (gitHub.Fetch released noOpts tokenProvider [])).
  { vm_compute. do 3 apply list_elem_of_further. apply list_elem_of_here. }
  split; [exact Hin|]. rewrite Htr in Hin.
  destruct (H _ _ Hin) as (Ha & Hb & Hc).
  split; [exact Ha|]. split; [exact Hb|]. apply Hc; discriminate.
Defined.

Lemma Fetch_downloads_selected_witness :
  exists r gf0,
    (answer released noOpts tokenProvider).1.1 = Some r /\
    FilterAssets released (filterOf noOpts) "repo" (candidatesOf tokenProvider r)
      = inl gf0 /\
    assets.FilteredAsset_Name gf0 = "a.tar.gz".
Proof.
  destruct (Fetch_downloads_selected released noOpts tokenProvider [])
    as (evs & Htr & H).
  simpl app in Htr.
  assert (Hin : CallProcessURL (filterOf noOpts)
                  (withHeaders tokenProvider
                     (assets.mkFilteredAsset "a.tar.gz"
                        "https://api.github.com/assets/1" ∅))
                ∈ trace_of (gitHub.Fetch released noOpts tokenProvider [])).
  { vm_compute. do 3 apply list_elem_of_further. apply list_elem_of_here. }
  rewrite Htr in Hin. destruct (H _ _ Hin) as (_ & r & gf0 & Hr & Hf & Hgf).
  exists r, gf0. split; [exact Hr|]. split; [exact Hf|].
  injection Hgf as Hn _. symmetry. exact Hn.
Defined.

Lemma gitHub_GetLatestVersion_spec_witness :
  outcome_of (gitHub.GetLatestVersion unreachable
                (gitHub.set_tag "v1.2.3" latestProvider) [])
  = Err "dial tcp: connection refused".
Proof.
  rewrite (gitHub_GetLatestVersion_spec unreachable latestProvider [] None None
             (Some "dial tcp: connection refused") eq_refl "v1.2.3").
  reflexivity.
Defined.



Lemma Fetch_panic_iff_witness :
  exists msg, outcome_of (gitHub.Fetch unreachable noOpts latestProvider []) = Panic msg.
Proof.
  apply (Fetch_panic_iff unreachable noOpts latestProvider []).
  left. split; reflexivity.
Defined.

Lemma getCandidates_first_match_witness :
  gitHub.getCandidates twins "tool" tt []
  = (Ok [assets.mkAsset "tool" "https://api.github.com/assets/7"], tt, []).
Proof.
  apply (getCandidates_first_match []
           (github.mkReleaseAsset (Some "tool") (Some "https://api.github.com/assets/7"))
           [github.mkReleaseAsset (Some "tool") (Some "https://api.github.com/assets/8")]
           "tool" tt []).
  - discriminate.
  - reflexivity.
  - intros b Hb. by apply elem_of_nil in Hb.
Defined.

Lemma generic_Fetch_file_witness :
  exists file,
    outcome_of (generic.Fetch (answering oneLine) noOpts tool []) = Ok file /\
    File_Version file = "v1.2.3" /\ File_Name file = "tool-v1.2.3.tgz".
Proof.
  destruct (generic.Fetch (answering oneLine) noOpts tool [])
    as [[[file|e|msg] g'] tr'] eqn:HF;
    [|vm_compute in HF; discriminate..].
  assert (Hout : outcome_of (generic.Fetch (answering oneLine) noOpts tool []) = Ok file)
    by (rewrite HF; reflexivity).
  destruct (generic_Fetch_file (answering oneLine) noOpts tool [] file Hout)
    as (u & out & Hv & Hp & _ & _ & _ & Hname).
  exists file. split; [reflexivity|].
  vm_compute in Hv. injection Hv as Hver <-.
  vm_compute in Hp. injection Hp as <-.
  split; [symmetry; exact Hver|]. rewrite Hname; reflexivity.
Defined.

Lemma generic_Fetch_failure_witness :
  exists e,
    generic.Fetch (answering twoLines) noOpts tool []
    = (Err e, tool, [] ++ askLog (answering twoLines) tool).
Proof.
  destruct (generic_Fetch_failure (answering twoLines) noOpts tool []) as (_ & H & _).
  exists "net/url: invalid control character in URL".
  apply H. vm_compute. reflexivity.
Defined.

Lemma generic_Fetch_error_origin_witness :
  exists resp body,
    http_Get (answering twoLines) (generic.client tool)
             (endpoint (answering twoLines) tool) = inl resp /\
    http.Body resp = inl body /\
    url_Parse (answering twoLines) (substituted tool (strings.TrimSpace body))
      = inr "net/url: invalid control character in URL".
Proof.
  destruct (generic_Fetch_error_origin (answering twoLines) noOpts tool []) as (_ & H).
  destruct (H "net/url: invalid control character in URL")
    as [Hg|(resp & Hg & [Hb|(body & Hb & [Hp|(t & Hp & _)])])].
  - vm_compute. reflexivity.
  - vm_compute in Hg. discriminate.
  - exfalso. vm_compute in Hg. injection Hg as <-. vm_compute in Hb. discriminate.
  - exists resp, body. split; [exact Hg|]. split; [exact Hb | exact Hp].
  - exfalso. vm_compute in Hg. injection Hg as <-. vm_compute in Hb.
    injection Hb as <-. vm_compute in Hp. discriminate.
Defined.

Lemma generic_body_only_witness :
  generic.GetLatestVersion (answeringWith 200 "v1.2.3") tool []
  = generic.GetLatestVersion (answeringWith 404 oneLine) tool [].
Proof.
  assert (Hrune : forall e, bool_decide (e ∈ unicode.spaceRunes) = true -> AllSpace e).
  { intros e He. apply bool_decide_eq_true in He. rewrite <- (app_nil_r e).
    constructor; [exact He | constructor]. }
  apply (generic_body_only (answeringWith 200 "v1.2.3") (answeringWith 404 oneLine)
           tool [] (http.mkResponse 200 (inl "v1.2.3"))
           (http.mkResponse 404 (inl oneLine)) "v1.2.3" " " LF);
    try reflexivity; apply Hrune; vm_compute; reflexivity.
Defined.


End more_runs.
